(** * ytbot: the file-transfer segmentation and delivery workflow of bot.py

    A shallow embedding of [split_file] and [handle_download] (bot.py) and
    the properties of the delivery workflow.

    - The scratch directory is a finite map from paths to byte contents.
    - Python exceptions are carried by their [str(e)] text, the only thing
      the handlers of bot.py look at.
    - The chat transport is observed through a chronological trace of
      events (text messages, attachment uploads, [os.remove] calls).
    - The external collaborators are parameters: the downloader
      ([download_with_ytdlp]), the faults of attachment uploads and the
      faults of writes to the scratch directory.  Text messages
      ([reply_text], [edit_text]) are taken to be delivered, and
      [os.remove] succeeds on a file that exists. *)

From Stdlib Require Import ZArith Lia List Ascii String Strings.Byte.
From Stdlib Require Import DecimalString DecimalNat.
From stdpp Require Import base option list gmap strings.

Local Open Scope Z_scope.

(** ** Module-level configuration (bot.py, lines 26-27) *)

Definition TG_SIZE_LIMIT : Z := 50 * 1024 * 1024.
Definition CHUNK_SIZE : Z := 48 * 1024 * 1024.

(** ** Python strings

    A [str] is modelled by its UTF-8 bytes. *)

Module Str.

(** [c.lower()] on one ASCII character: 'A'..'Z' go to 'a'..'z'.  Bytes
    outside ASCII are left alone: of the non-ASCII characters only
    U+0130 and U+212A lower to something with an ASCII letter in it, and
    neither can complete one of the keywords looked for in bot.py. *)
Definition lower_ascii (c : ascii) : ascii :=
  let n := nat_of_ascii c in
  if ((65 <=? n)%nat && (n <=? 90)%nat)%bool then ascii_of_nat (n + 32) else c.

(** [s.lower()] *)
Fixpoint lower (s : string) : string :=
  match s with
  | EmptyString => EmptyString
  | String c s' => String (lower_ascii c) (lower s')
  end.

(** [s.startswith(p)] *)
Fixpoint startswith (p s : string) : bool :=
  match p, s with
  | EmptyString, _ => true
  | String _ _, EmptyString => false
  | String a p', String b s' => if Ascii.eqb a b then startswith p' s' else false
  end.

(** [needle in hay] *)
Fixpoint contains (needle hay : string) : bool :=
  if startswith needle hay then true
  else match hay with
       | EmptyString => false
       | String _ hay' => contains needle hay'
       end.

(** [str(n)] for a natural number *)
Definition str_nat (n : nat) : string := NilZero.string_of_uint (Nat.to_uint n).

(** [str(z)] for an integer *)
Definition str_int (z : Z) : string := NilZero.string_of_int (Z.to_int z).

Fixpoint zeros (n : nat) : string :=
  match n with
  | O => EmptyString
  | S n' => String "0" (zeros n')
  end.

(** [s.zfill(width)] on a string of digits *)
Definition zfill (width : nat) (s : string) : string :=
  zeros (width - String.length s) +:+ s.

(** [f"{idx:03d}"] for idx >= 0: decimal digits, padded with zeros on the
    left to a width of at least three. *)
Definition fmt03d (idx : nat) : string := zfill 3 (str_nat idx).

(** The text after the last '/' of [s], or [None] when [s] has no '/'. *)
Fixpoint after_last_slash (s : string) : option string :=
  match s with
  | EmptyString => None
  | String c s' =>
      match after_last_slash s' with
      | Some t => Some t
      | None => if Ascii.eqb c "/" then Some s' else None
      end
  end.

(** [os.path.basename(p)] (posixpath): [p[p.rfind('/')+1:]] *)
Definition basename (p : string) : string := default p (after_last_slash p).

Definition newline : string := String (ascii_of_nat 10) EmptyString.

End Str.

(** ** The world of one request *)

Abbreviation bytes := (list byte).

(** What bot.py sends to the chat, by call site.  [render] gives the text. *)
Inductive message :=
| MsgQueued (url : string)                       (* line 127 *)
| MsgDownloadFailed (e extra : string)           (* line 138 *)
| MsgAccessFailed (e : string)                   (* line 145 *)
| MsgUploading (name : string) (mb : Z)          (* line 149 *)
| MsgUploadFailed (e : string)                   (* line 155 *)
| MsgDoneFile                                    (* line 162 *)
| MsgSplitting (mb : Z)                          (* line 166 *)
| MsgDoneParts                                   (* line 180 *)
| MsgSplitFailed (e : string).                   (* line 183 *)

Definition render (m : message) : string :=
  match m with
  | MsgQueued url => "Queued: " +:+ url +:+ Str.newline +:+ "Starting download..."
  | MsgDownloadFailed e extra => "❌ Download failed: " +:+ e +:+ extra
  | MsgAccessFailed e => "Downloaded but failed to access file: " +:+ e
  | MsgUploading name mb => "Uploading " +:+ name +:+ " (" +:+ Str.str_int mb +:+ " MB)..."
  | MsgUploadFailed e => "Upload failed: " +:+ e
  | MsgDoneFile => "✅ Done — file sent."
  | MsgSplitting mb => "File is " +:+ Str.str_int mb +:+ " MB (>50MB). Splitting into parts..."
  | MsgDoneParts => "✅ Done — big file sent in parts."
  | MsgSplitFailed e => "Failed to split/upload parts: " +:+ e
  end.

(** The hint of lines 136-137. *)
Definition cookie_hint : string :=
  Str.newline +:+ Str.newline +:+ "Hint: This video may require login/cookies. "
  +:+ "Set YTDLP_COOKIES_CONTENT (exported cookies.txt content) in env and restart.".

Inductive event :=
| ReplyText (m : message)       (* update.message.reply_text(...) *)
| EditText (m : message)        (* status.edit_text(...) *)
| SendDocument (document filename : string) (data : bytes) (err : option string)
                                (* context.bot.send_document(chat_id, document=fh, filename=...):
                                   the path and contents of the open file, the attachment
                                   name, and the fault of the transport if any *)
| Remove (path : string).       (* os.remove(path) *)

Record state := State {
  disk : gmap string bytes;     (* the scratch directory *)
  trace : list event;           (* what the request did so far, oldest first *)
  sends : nat                   (* send_document calls made so far *)
}.

Definition set_disk (d : gmap string bytes) (st : state) : state :=
  State d (trace st) (sends st).
Definition log (e : event) (st : state) : state :=
  State (disk st) (trace st ++ [e]) (sends st).

(** ** Computations that may raise *)

Inductive outcome (A : Type) :=
| Ret (a : A)
| Raise (e : string)            (* an exception, by its str(e) *)
| OutOfFuel.                    (* the bound of a loop of the model was hit *)
Arguments Ret {A} a.
Arguments Raise {A} e.
Arguments OutOfFuel {A}.

Definition io (A : Type) : Type := state → outcome A * state.

Definition io_ret {A} (a : A) : io A := λ st, (Ret a, st).
Definition io_bind {A B} (f : A → io B) (m : io A) : io B :=
  λ st, match m st with
        | (Ret a, st') => f a st'
        | (Raise e, st') => (Raise e, st')
        | (OutOfFuel, st') => (OutOfFuel, st')
        end.
#[global] Instance io_mret : MRet io := @io_ret.
#[global] Instance io_mbind : MBind io := @io_bind.

Definition raise {A} (e : string) : io A := λ st, (Raise e, st).

(** [try: body  except Exception as e: handler(e)] *)
Definition try_except {A} (body : io A) (handler : string → io A) : io A :=
  λ st, match body st with
        | (Raise e, st') => handler e st'
        | r => r
        end.

(** [try: body  finally: final] *)
Definition try_finally {A} (body : io A) (final : io unit) : io A :=
  λ st, match body st with
        | (r, st') =>
            match final st' with
            | (Ret _, st'') => (r, st'')
            | (Raise e, st'') => (Raise e, st'')
            | (OutOfFuel, st'') => (OutOfFuel, st'')
            end
        end.

(** [try: body  except: pass] *)
Definition suppress (body : io unit) : io unit := try_except body (λ _, mret tt).

(** ** Files *)

Definition enoent (path : string) : string :=
  "[Errno 2] No such file or directory: '" +:+ path +:+ "'".

(** An open binary file: its path and the read position. *)
Record file := File { name : string; pos : nat }.

Definition content (path : string) (st : state) : bytes := default [] (disk st !! path).

(** [open(path, 'rb')] *)
Definition open_rb (path : string) : io file :=
  λ st, match disk st !! path with
        | Some _ => (Ret (File path 0), st)
        | None => (Raise (enoent path), st)
        end.

Definition read_length_error : string := "read length must be non-negative or -1".

(** [f.read(size)] on a buffered binary file: up to [size] bytes from the
    read position, all the rest when [size] is -1, a ValueError below -1;
    returns the bytes and the advanced file. *)
Definition read (f : file) (size : Z) : io (bytes * file) :=
  λ st, if size <? -1 then (Raise read_length_error, st)
        else
          let rest := drop (pos f) (content (name f) st) in
          let chunk := if size <? 0 then rest else take (Z.to_nat size) rest in
          (Ret (chunk, File (name f) (pos f + length chunk)), st).

(** [os.path.getsize(path)] *)
Definition getsize (path : string) : io Z :=
  λ st, match disk st !! path with
        | Some data => (Ret (Z.of_nat (length data)), st)
        | None => (Raise (enoent path), st)
        end.

(** [os.remove(path)] *)
Definition remove (path : string) : io unit :=
  λ st, match disk st !! path with
        | Some _ => (Ret tt, set_disk (delete path (disk st)) (log (Remove path) st))
        | None => (Raise (enoent path), log (Remove path) st)
        end.

Definition reply_text (m : message) : io unit := λ st, (Ret tt, log (ReplyText m) st).
Definition edit_text (m : message) : io unit := λ st, (Ret tt, log (EditText m) st).

(** What a call of the downloader comes to. *)
Inductive fetched :=
| Downloaded (filepath : string)    (* [return filename] *)
| DownloadFailed (msg : string).    (* an exception with this [str(e)] *)

Section Bot.

(** The environment of a request. *)
Variable write_fault : string → option string.
  (* the error of [open(p, 'wb')] for the paths that cannot be written *)
Variable upload_fault : nat → option string.
  (* the error of the k-th [send_document] call of the request, if it fails *)
Variable ytdlp : string → gmap string bytes → fetched * gmap string bytes.
  (* [download_with_ytdlp(url)]: the path it returns or the exception it
     raises, and what it leaves in the scratch directory *)

(** [with open(path, 'wb') as pf: pf.write(data)] *)
Definition write_file (path : string) (data : bytes) : io unit :=
  λ st, match write_fault path with
        | Some e => (Raise e, st)
        | None => (Ret tt, set_disk (<[path := data]> (disk st)) st)
        end.

(** [await context.bot.send_document(chat_id, document=fh, filename=filename)] *)
Definition send_document (fh : file) (filename : string) : io unit :=
  λ st, let data := drop (pos fh) (content (name fh) st) in
        let err := upload_fault (sends st) in
        let st' := State (disk st)
                         (trace st ++ [SendDocument (name fh) filename data err])
                         (S (sends st)) in
        match err with
        | Some e => (Raise e, st')
        | None => (Ret tt, st')
        end.

Definition download_with_ytdlp (url : string) : io string :=
  λ st, match ytdlp url (disk st) with
        | (Downloaded filepath, d) => (Ret filepath, set_disk d st)
        | (DownloadFailed msg, d) => (Raise msg, set_disk d st)
        end.

(** *** split_file (bot.py, lines 88-101) *)

Definition part_path (path : string) (idx : nat) : string :=
  path +:+ ".part" +:+ Str.fmt03d idx.

(** The [while True] loop of lines 92-100, at most [fuel] iterations. *)
Fixpoint split_loop (fuel : nat) (path : string) (chunk_size : Z)
    (f : file) (idx : nat) (parts : list string) : io (list string) :=
  match fuel with
  | O => λ st, (OutOfFuel, st)
  | S fuel' =>
      '(chunk, f') ← read f chunk_size;
      match chunk with
      | [] => mret parts                                        (* break *)
      | _ :: _ =>
          write_file (part_path path idx) chunk;;
          split_loop fuel' path chunk_size f' (S idx) (parts ++ [part_path path idx])
      end
  end.

(** The loop reads at least one byte in every iteration but the last, so
    one more iteration than the file has bytes is enough
    ([split_file_not_out_of_fuel] below). *)
Definition split_file (path : string) (chunk_size : Z) : io (list string) :=
  f ← open_rb path;
  (λ st, split_loop (S (length (content path st))) path chunk_size f 1 [] st)
    : io (list string).

(** *** handle_download (bot.py, lines 125-183) *)

(** Whether a block ran to its end or left the function with [return]. *)
Inductive flow := Next | Return.

(** The test of line 135 on [msg = str(e)]. *)
Definition needs_login (msg : string) : bool :=
  Str.contains "age-restricted" (Str.lower msg)
  || Str.contains "login" (Str.lower msg)
  || Str.contains "private" (Str.lower msg).

(** Lines 149-163: the file goes out as one attachment. *)
Definition direct_send (filepath : string) (size : Z) : io unit :=
  edit_text (MsgUploading (Str.basename filepath) (size / 1024 / 1024));;
  fl ← try_finally
         (try_except
            (f ← open_rb filepath;
             send_document f (Str.basename filepath);;
             mret Next)
            (λ e, edit_text (MsgUploadFailed e);; mret Return))
         (suppress (remove filepath));
  match fl with
  | Return => mret tt
  | Next => edit_text MsgDoneFile
  end.

(** Lines 169-175: [for p in parts]. *)
Fixpoint upload_parts (parts : list string) : io unit :=
  match parts with
  | [] => mret tt
  | p :: parts' =>
      fh ← open_rb p;
      send_document fh (Str.basename p);;
      suppress (remove p);;
      upload_parts parts'
  end.

(** Lines 166-183: split and send the parts.  [split_file] is called with
    its default chunk size. *)
Definition split_and_send (filepath : string) (size : Z) : io unit :=
  edit_text (MsgSplitting (size / 1024 / 1024));;
  try_except
    (parts ← split_file filepath CHUNK_SIZE;
     upload_parts parts;;
     suppress (remove filepath);;
     edit_text MsgDoneParts)
    (λ e, edit_text (MsgSplitFailed e)).

Definition handle_download (url : string) : io unit :=
  reply_text (MsgQueued url);;
  dl ← try_except
         (filepath ← download_with_ytdlp url; mret (Some filepath))
         (λ msg,
            let extra := if needs_login msg then cookie_hint else "" in
            edit_text (MsgDownloadFailed msg extra);;
            mret None);
  match dl with
  | None => mret tt
  | Some filepath =>
      sz ← try_except
             (size ← getsize filepath; mret (Some size))
             (λ e, edit_text (MsgAccessFailed e);; mret None);
      match sz with
      | None => mret tt
      | Some size =>
          if size <=? TG_SIZE_LIMIT
          then direct_send filepath size
          else split_and_send filepath size
      end
  end.

End Bot.

(** ** The downloader and the cookie file (bot.py, lines 21-23 and 31-86)

    The yt-dlp library is a parameter: what [extract_info] and
    [prepare_filename] come to, and what the call leaves in the scratch
    directory.  Directories are not part of the disk of the model:
    [os.makedirs] has no effect on it, [os.path.exists] is the presence of a
    file, and [os.listdir] is a parameter. *)

Module Path.

(** [s.rfind(c)]: the index of the last [c] in [s]. *)
Fixpoint rfind (c : ascii) (s : string) : option nat :=
  match s with
  | EmptyString => None
  | String a s' =>
      match rfind c s' with
      | Some i => Some (S i)
      | None => if Ascii.eqb a c then Some O else None
      end
  end.

(** [s[:n]] and [s[n:]] *)
Fixpoint take (n : nat) (s : string) : string :=
  match n, s with
  | O, _ => EmptyString
  | S _, EmptyString => EmptyString
  | S n', String a s' => String a (take n' s')
  end.

Fixpoint drop (n : nat) (s : string) : string :=
  match n, s with
  | O, _ => s
  | S _, EmptyString => EmptyString
  | S n', String _ s' => drop n' s'
  end.

Fixpoint all_dots (s : string) : bool :=
  match s with
  | EmptyString => true
  | String a s' => Ascii.eqb a "." && all_dots s'
  end.

(** [os.path.splitext(p)] (genericpath._splitext with sep '/' and extsep
    '.'): cut at the last dot when it comes after the last '/' and after a
    character of the file name that is no dot. *)
Definition splitext (p : string) : string * string :=
  let sepIndex := match rfind "/" p with Some i => Z.of_nat i | None => -1 end in
  let dotIndex := match rfind "." p with Some i => Z.of_nat i | None => -1 end in
  if sepIndex <? dotIndex then
    let filenameIndex := Z.to_nat (sepIndex + 1) in
    if all_dots (take (Z.to_nat dotIndex - filenameIndex) (drop filenameIndex p))
    then (p, EmptyString)
    else (take (Z.to_nat dotIndex) p, drop (Z.to_nat dotIndex) p)
  else (p, EmptyString).

(** [s.endswith("/")] *)
Fixpoint ends_with_slash (s : string) : bool :=
  match s with
  | EmptyString => false
  | String a EmptyString => Ascii.eqb a "/"
  | String _ s' => ends_with_slash s'
  end.

(** [os.path.join(a, b)] (posixpath) *)
Definition join (a b : string) : string :=
  if Str.startswith "/" b then b
  else if ends_with_slash a then a +:+ b
  else match a with
       | EmptyString => b
       | _ => a +:+ "/" +:+ b
       end.

End Path.

Definition TMP_DIR : string := "/tmp".

(** What [ydl.extract_info(url, download=True)] comes to. *)
Inductive extraction :=
| Info (id : option string) (filename : string)
    (* the info dict by its [info.get('id')], and [ydl.prepare_filename(info)] *)
| DownloadError (msg : string)      (* yt_dlp.DownloadError with this [str(e)] *)
| OtherError (msg : string).        (* any other exception *)

Module Fetcher.
Section Library.

Variable write_fault : string → option string.
Variable cookies_file : string.
  (* YTDLP_COOKIES_FILE *)
Variable extract_info :
  option string → string → string → gmap string bytes → extraction * gmap string bytes.
  (* by the cookie file of the options if any, the output directory of the
     options and the url *)
Variable listdir : string → gmap string bytes → list string.
  (* [os.listdir(outdir)]: the names, in the order of the directory *)

(** Lines 31-42, on YTDLP_COOKIES_CONTENT: nothing is written when it is
    unset or empty.  The file is written as UTF-8 text, line ends as they
    are (a POSIX system). *)
Definition ensure_cookies_file (content : option string) : io unit :=
  match content with
  | None | Some EmptyString => mret tt
  | Some text => write_file write_fault cookies_file (list_byte_of_string text)
  end.

(** The cookie file that the options of a download get (lines 59-60). *)
Definition cookiefile_of (d : gmap string bytes) : option string :=
  if bool_decide (is_Some (d !! cookies_file)) then Some cookies_file else None.

(** [os.path.exists(path)] *)
Definition path_exists (path : string) : io bool :=
  λ st : state, (Ret (bool_decide (is_Some (disk st !! path))), st).

(** Lines 58-67: the options get the cookie file when it exists; a
    DownloadError is raised again as a RuntimeError. *)
Definition extract (url outdir : string) : io (option string * string) :=
  has_cookies ← path_exists cookies_file;
  let cookiefile := if has_cookies : bool then Some cookies_file else None in
  (λ st, match extract_info cookiefile outdir url (disk st) with
         | (Info id filename, d) => (Ret (id, filename), set_disk d st)
         | (DownloadError msg, d) => (Raise ("yt-dlp DownloadError: " +:+ msg), set_disk d st)
         | (OtherError msg, d) => (Raise msg, set_disk d st)
         end) : io (option string * string).

Definition none_plus_str : string :=
  "unsupported operand type(s) for +: 'NoneType' and 'str'".

(** Lines 78-83: [for fname in os.listdir(outdir)]. *)
Fixpoint find_by_id (outdir : string) (vid_id : option string) (names : list string)
    (filename : string) : io string :=
  match names with
  | [] => mret filename
  | fname :: names' =>
      match vid_id with
      | None => raise none_plus_str
      | Some id =>
          if Str.startswith (id +:+ ".") fname then
            let cand := Path.join outdir fname in
            size ← getsize cand;
            if 0 <? size then mret cand                       (* break *)
            else find_by_id outdir vid_id names' filename
          else find_by_id outdir vid_id names' filename
      end
  end.

(** Lines 68-86: from the name that yt-dlp prepared to a file that is there. *)
Definition resolve (outdir : string) (vid_id : option string) (filename : string) : io string :=
  there ← path_exists filename;
  filename ← (if there : bool then mret filename
              else
                let mp4 := (Path.splitext filename).1 +:+ ".mp4" in
                mp4_there ← path_exists mp4;
                mret (if mp4_there : bool then mp4 else filename));
  there ← path_exists filename;
  filename ← (if there : bool then mret filename
              else
                (λ st, find_by_id outdir vid_id (listdir outdir (disk st)) filename st)
                  : io string);
  there ← path_exists filename;
  if there : bool then mret filename
  else raise "Download completed but output file not found".

(** Lines 44-86. *)
Definition download_with_ytdlp (url outdir : string) : io string :=
  '(vid_id, filename) ← extract url outdir;
  resolve outdir vid_id filename.

(** The downloader as [handle_download] calls it (line 130), with the
    default output directory. *)
Definition fetch (url : string) (d : gmap string bytes) : fetched * gmap string bytes :=
  match download_with_ytdlp url TMP_DIR (State d [] 0) with
  | (Ret filepath, st) => (Downloaded filepath, disk st)
  | (Raise msg, st) => (DownloadFailed msg, disk st)
  | (OutOfFuel, st) => (DownloadFailed EmptyString, disk st)
  end.

End Library.
End Fetcher.

(** ** The message handlers (bot.py, lines 29 and 104-123) *)

(** The pattern [URL_RE = re.compile(r'(https?://\S+)')] on UTF-8 text. *)
Module Re.

(** The white space of [\s] on a [str] pattern, the characters for which
    [str.isspace()] holds: U+0009..U+000D, U+001C..U+0020, U+0085, U+00A0,
    U+1680, U+2000..U+200A, U+2028, U+2029, U+202F, U+205F and U+3000.
    [space_at s] tells whether the UTF-8 encoding of one of them starts [s]. *)
Definition ascii_space (n : nat) : bool :=
  ((9 <=? n)%nat && (n <=? 13)%nat) || ((28 <=? n)%nat && (n <=? 32)%nat).

Definition space_at (s : string) : bool :=
  match s with
  | EmptyString => false
  | String c1 r1 =>
      let n1 := nat_of_ascii c1 in
      if ascii_space n1 then true
      else
        match r1 with
        | EmptyString => false
        | String c2 r2 =>
            let n2 := nat_of_ascii c2 in
            if (n1 =? 194)%nat then (n2 =? 133)%nat || (n2 =? 160)%nat
            else
              match r2 with
              | EmptyString => false
              | String c3 _ =>
                  let n3 := nat_of_ascii c3 in
                  if (n1 =? 225)%nat then (n2 =? 154)%nat && (n3 =? 128)%nat
                  else if (n1 =? 226)%nat then
                    ((n2 =? 128)%nat &&
                     (((128 <=? n3)%nat && (n3 <=? 138)%nat) || (n3 =? 168)%nat
                      || (n3 =? 169)%nat || (n3 =? 175)%nat))
                    || ((n2 =? 129)%nat && (n3 =? 159)%nat)
                  else if (n1 =? 227)%nat then (n2 =? 128)%nat && (n3 =? 128)%nat
                  else false
              end
        end
  end.

(** [\S+] at the start of [s]: the longest prefix in which no white space
    starts (the match is greedy and nothing follows it in the pattern). *)
Fixpoint nonspace_run (s : string) : string :=
  match s with
  | EmptyString => EmptyString
  | String c s' => if space_at s then EmptyString else String c (nonspace_run s')
  end.

(** [s[n:]] *)
Fixpoint skip (n : nat) (s : string) : string :=
  match n, s with
  | O, _ => s
  | S _, EmptyString => EmptyString
  | S n', String _ s' => skip n' s'
  end.

(** The pattern after the scheme: [\S+] must take at least one character. *)
Definition after_scheme (scheme s : string) : option string :=
  if Str.startswith scheme s then
    match nonspace_run (skip (String.length scheme) s) with
    | EmptyString => None
    | r => Some (scheme +:+ r)
    end
  else None.

(** [URL_RE.match(s)]: [https?] first tries the optional "s". *)
Definition match_here (s : string) : option string :=
  match after_scheme "https://" s with
  | Some u => Some u
  | None => after_scheme "http://" s
  end.

(** [URL_RE.search(s)], then [m.group(1)]: the leftmost match. *)
Fixpoint search (s : string) : option string :=
  match match_here s with
  | Some u => Some u
  | None =>
      match s with
      | EmptyString => None
      | String _ s' => search s'
      end
  end.

(** No white space starts anywhere in [s]. *)
Fixpoint free_of_space (s : string) : bool :=
  match s with
  | EmptyString => true
  | String _ s' => negb (space_at s) && free_of_space s'
  end.

(** The pattern matches at the start of [s]: a scheme and then a character
    that is no white space. *)
Definition url_starts (s : string) : Prop :=
  ∃ scheme rest, (scheme = "http://" ∨ scheme = "https://") ∧
                 s = scheme +:+ rest ∧ rest ≠ "" ∧ space_at rest = false.

End Re.

(** What a handler did with an update. *)
Inductive handled :=
| Ignored                                            (* returned at once *)
| Replied (text : string)                            (* one [reply_text], then returned *)
| Ran (url : string) (r : outcome unit * state).     (* awaited [handle_download] on [url] *)

Definition start_text : string :=
  "Send me a YouTube URL or use /dl <URL>" +:+ Str.newline
  +:+ "I try to download a low-res copy (<=360p) and send it here." +:+ Str.newline
  +:+ "If content requires login/age-check, set YTDLP_COOKIES_CONTENT env (cookies.txt content).".

Section Handlers.

Variable write_fault : string → option string.
Variable upload_fault : nat → option string.
Variable ytdlp : string → gmap string bytes → fetched * gmap string bytes.

(** Lines 104-107. *)
Definition start_command : handled := Replied start_text.

(** Lines 109-115, on [context.args]. *)
Definition dl_command (args : list string) (st : state) : handled :=
  match args with
  | url :: _ => Ran url (handle_download write_fault upload_fault ytdlp url st)
  | [] => Replied "Usage: /dl <URL>"
  end.

(** Lines 117-123, on [update.message.text], which may be [None]. *)
Definition text_url_handler (text : option string) (st : state) : handled :=
  match Re.search (default "" text) with
  | None => Ignored
  | Some url => Ran url (handle_download write_fault upload_fault ytdlp url st)
  end.

End Handlers.

(** ** Notions used in the statements *)

(** [needle] occurs in [hay]. *)
Definition substring_of (needle hay : string) : Prop :=
  ∃ pre post, hay = pre +:+ needle +:+ post.

(** Reading a string of digits back, leading zeros allowed. *)
Definition parse_nat (s : string) : option nat :=
  option_map Nat.of_uint (NilEmpty.uint_of_string s).

Definition no_fault {A} : A → option string := λ _, None.
Definition bytes_of (s : string) : bytes := list_byte_of_string s.

(** The state in which a request starts: nothing sent yet. *)
Definition start (d : gmap string bytes) : state := State d [] 0.

(** The parts read back from the disk and concatenated, in list order. *)
Fixpoint concat_parts (d : gmap string bytes) (parts : list string) : option bytes :=
  match parts with
  | [] => Some []
  | p :: ps => c ← d !! p; r ← concat_parts d ps; Some (c ++ r)
  end.

(** ceil(n / c) for c > 0 *)
Definition ceil_div (n c : Z) : Z :=
  if n mod c =? 0 then n / c else n / c + 1.

(** The disk after the chunks [cs] went to the parts idx, idx+1, ... of [path]. *)
Fixpoint with_parts (path : string) (idx : nat) (cs : list bytes)
    (d : gmap string bytes) : gmap string bytes :=
  match cs with
  | [] => d
  | c :: cs' => with_parts path (S idx) cs' (<[part_path path idx := c]> d)
  end.

(** The names are listed in strictly increasing lexicographic order, the
    order of [sorted] on Python strings. *)
Definition lex_sorted (l : list string) : Prop :=
  ∀ i j p q, (i < j)%nat → l !! i = Some p → l !! j = Some q → String.ltb p q = true.

(** Every string is below all the strings after it. *)
Fixpoint all_ltb (l : list string) : bool :=
  match l with
  | [] => true
  | x :: l' => forallb (String.ltb x) l' && all_ltb l'
  end.

(** The suffixes of the indices 0..999. *)
Definition fmt_table : list string := map Str.fmt03d (seq 0 1000).

(** A small scratch directory for the examples: one file of ten bytes, and
    what [split_file] leaves of it for chunks of 16 and of 4 bytes. *)
Definition demo_disk : gmap string bytes :=
  {[ "/tmp/a.mp4" := bytes_of "0123456789" ]}.
Definition demo_split16 : state :=
  State (<["/tmp/a.mp4.part001" := bytes_of "0123456789"]> demo_disk) [] 0.
Definition demo_split4 : state :=
  State (<["/tmp/a.mp4.part003" := bytes_of "89"]>
           (<["/tmp/a.mp4.part002" := bytes_of "4567"]>
              (<["/tmp/a.mp4.part001" := bytes_of "0123"]> demo_disk))) [] 0.

(** The role of a message in the stream of a request. *)
Inductive kind := Ack | Progress | Terminal.

Definition kind_of (m : message) : kind :=
  match m with
  | MsgQueued _ => Ack
  | MsgUploading _ _ | MsgSplitting _ => Progress
  | MsgDownloadFailed _ _ | MsgAccessFailed _ | MsgUploadFailed _
  | MsgDoneFile | MsgDoneParts | MsgSplitFailed _ => Terminal
  end.

(** The text messages of a trace, in order. *)
Fixpoint messages (tr : list event) : list message :=
  match tr with
  | [] => []
  | ReplyText m :: tr' | EditText m :: tr' => m :: messages tr'
  | _ :: tr' => messages tr'
  end.

(** The files given to [send_document] in a trace, in order. *)
Fixpoint uploads (tr : list event) : list string :=
  match tr with
  | [] => []
  | SendDocument p _ _ _ :: tr' => p :: uploads tr'
  | _ :: tr' => uploads tr'
  end.

(** The events of sending the files [pcs] (paths and contents) one after
    the other, each removed once it is sent. *)
Definition uploaded (pcs : list (string * bytes)) : list event :=
  flat_map (λ pc, [SendDocument pc.1 (Str.basename pc.1) pc.2 None; Remove pc.1]) pcs.

(** The disk once the files [ps] are removed. *)
Definition without (ps : list string) (d : gmap string bytes) : gmap string bytes :=
  foldl (λ d p, delete p d) d ps.

(** Two texts are the same up to the case of their letters. *)
Definition same_ignoring_case (s t : string) : Prop := Str.lower s = Str.lower t.

(** [kw] occurs in [s] up to the case of the letters. *)
Definition occurs_ignoring_case (kw s : string) : Prop :=
  ∃ pre mid post, s = pre +:+ mid +:+ post ∧ same_ignoring_case mid kw.

(** The cause text has one of the restriction keywords in it. *)
Definition mentions_restriction (msg : string) : Prop :=
  occurs_ignoring_case "age-restricted" msg ∨
  occurs_ignoring_case "login" msg ∨
  occurs_ignoring_case "private" msg.

(** Environments for the examples. *)
Definition fetch_fails (msg : string) : string → gmap string bytes → fetched * gmap string bytes :=
  λ _ d, (DownloadFailed msg, d).
Definition fetch_gives (filepath : string) : string → gmap string bytes → fetched * gmap string bytes :=
  λ _ d, (Downloaded filepath, d).
Definition first_upload_fails : nat → option string :=
  λ k, match k with O => Some "Timed out" | S _ => None end.
(** A transport that accepts the first upload and refuses the second. *)
Definition second_upload_fails : nat → option string :=
  λ k, match k with 1%nat => Some "Timed out" | _ => None end.

(** A file of exactly the limit of the transport, and one a byte longer. *)
Definition limit_file : bytes := replicate (Z.to_nat TG_SIZE_LIMIT) "000"%byte.
Definition big_file : bytes := replicate (Z.to_nat (TG_SIZE_LIMIT + 1)) "000"%byte.

(** A scratch directory in which the second part of the example cannot be
    opened for writing, and what [split_file] leaves there for chunks of
    4 bytes. *)
Definition part2_not_writable : string → option string :=
  λ p, if String.eqb p "/tmp/a.mp4.part002"
       then Some "[Errno 13] Permission denied: '/tmp/a.mp4.part002'"
       else None.
Definition demo_partial : state :=
  State (<["/tmp/a.mp4.part001" := bytes_of "0123"]> demo_disk) [] 0.

(** The contents of the attachments that the transport accepted, in order. *)
Fixpoint delivered (tr : list event) : list bytes :=
  match tr with
  | [] => []
  | SendDocument _ _ data None :: tr' => data :: delivered tr'
  | _ :: tr' => delivered tr'
  end.

(** Whether the last message of a request says that the file was sent. *)
Definition kind_of_success (m : option message) : bool :=
  match m with
  | Some MsgDoneFile | Some MsgDoneParts => true
  | _ => false
  end.

(** A library and a directory for the examples: yt-dlp says that the video
    "abc" went to [prepared], and the directory lists three names. *)
Definition demo_library (prepared : string) :
    option string → string → string → gmap string bytes → extraction * gmap string bytes :=
  λ _ _ _ d, (Info (Some "abc") prepared, d).
Definition demo_library_with_cookies (prepared : string) :
    option string → string → string → gmap string bytes → extraction * gmap string bytes :=
  λ cookiefile _ _ d,
    match cookiefile with
    | Some _ => (Info (Some "abc") prepared, d)
    | None => (DownloadError "Sign in to confirm your age", d)
    end.
Definition demo_listdir : string → gmap string bytes → list string :=
  λ _ _, ["abc.part"; "abc.webm"; "zzz.mp4"].
Definition demo_webm : gmap string bytes :=
  <["/tmp/abc.part" := []]> {[ "/tmp/abc.webm" := bytes_of "video" ]}.
Definition demo_mp4 : gmap string bytes := {[ "/tmp/abc.mp4" := bytes_of "video" ]}.

(** ** Examples *)

Example fmt03d_7 : Str.fmt03d 7 = "007".
Proof. reflexivity. Qed.

Example fmt03d_1000 : Str.fmt03d 1000 = "1000".
Proof. reflexivity. Qed.

Example basename_tmp : Str.basename "/tmp/a.mp4" = "a.mp4".
Proof. reflexivity. Qed.

Example basename_plain : Str.basename "a.mp4" = "a.mp4".
Proof. reflexivity. Qed.

Example lower_mixed : Str.lower "Sign in: LOGIN Required" = "sign in: login required".
Proof. reflexivity. Qed.

Example needs_login_age : needs_login "ERROR: This video is Age-Restricted" = true.
Proof. reflexivity. Qed.

Example needs_login_404 : needs_login "yt-dlp DownloadError: HTTP Error 404" = false.
Proof. reflexivity. Qed.

Example render_uploading :
  render (MsgUploading "a.mp4" (20971520 / 1024 / 1024)) = "Uploading a.mp4 (20 MB)...".
Proof. reflexivity. Qed.

(** Ten bytes in chunks of four: parts of 4, 4 and 2 bytes. *)
Example split_file_demo :
  split_file no_fault "/tmp/a.mp4" 4 (start demo_disk)
  = (Ret ["/tmp/a.mp4.part001"; "/tmp/a.mp4.part002"; "/tmp/a.mp4.part003"], demo_split4).
Proof. vm_compute. reflexivity. Qed.

(** A chunk size of 0 reads nothing: no parts, whatever the file. *)
Example split_file_chunk_0 :
  split_file no_fault "/tmp/a.mp4" 0 (start demo_disk) = (Ret [], start demo_disk).
Proof. vm_compute. reflexivity. Qed.

(** A small download goes out whole and is removed. *)
Example handle_download_small :
  handle_download no_fault no_fault (fetch_gives "/tmp/a.mp4") "https://youtu.be/abc"
    (start demo_disk)
  = (Ret tt,
     State ∅
       [ReplyText (MsgQueued "https://youtu.be/abc");
        EditText (MsgUploading "a.mp4" 0);
        SendDocument "/tmp/a.mp4" "a.mp4" (bytes_of "0123456789") None;
        Remove "/tmp/a.mp4";
        EditText MsgDoneFile]
       1).
Proof. vm_compute. reflexivity. Qed.

(** When the upload of a small download fails, the file is removed all the
    same (the [finally] of line 157). *)
Example handle_download_small_upload_fails :
  handle_download no_fault first_upload_fails (fetch_gives "/tmp/a.mp4") "https://youtu.be/abc"
    (start demo_disk)
  = (Ret tt,
     State ∅
       [ReplyText (MsgQueued "https://youtu.be/abc");
        EditText (MsgUploading "a.mp4" 0);
        SendDocument "/tmp/a.mp4" "a.mp4" (bytes_of "0123456789") (Some "Timed out");
        EditText (MsgUploadFailed "Timed out");
        Remove "/tmp/a.mp4"]
       1).
Proof. vm_compute. reflexivity. Qed.

Example search_plain :
  Re.search "see https://youtu.be/abc?t=1 now" = Some "https://youtu.be/abc?t=1".
Proof. reflexivity. Qed.

Example search_first_of_two :
  Re.search "http://a.b/c https://d.e" = Some "http://a.b/c".
Proof. reflexivity. Qed.

(** A scheme with nothing after it is no match; the search goes on. *)
Example search_bare_scheme : Re.search "https:// http://x" = Some "http://x".
Proof. reflexivity. Qed.

Example search_none : Re.search "no link, just HTTP://shouting" = None.
Proof. reflexivity. Qed.

Example splitext_plain : Path.splitext "/tmp/abc.webm" = ("/tmp/abc", ".webm").
Proof. reflexivity. Qed.

Example splitext_two_dots : Path.splitext "/tmp/a.b.mkv" = ("/tmp/a.b", ".mkv").
Proof. reflexivity. Qed.

(** A leading dot is part of the name, and a dot in a directory does not count. *)
Example splitext_hidden : Path.splitext "/tmp/.hidden" = ("/tmp/.hidden", "").
Proof. reflexivity. Qed.

Example splitext_dir_dot : Path.splitext "/tmp.d/abc" = ("/tmp.d/abc", "").
Proof. reflexivity. Qed.

Example join_plain : Path.join "/tmp" "abc.mp4" = "/tmp/abc.mp4".
Proof. reflexivity. Qed.

Example join_slash : Path.join "/tmp/" "abc.mp4" = "/tmp/abc.mp4".
Proof. reflexivity. Qed.

(** ** Facts about strings *)

Module StrFacts.
Import Str.

Lemma app_nil_l (s : string) : "" +:+ s = s.
Proof. reflexivity. Qed.

Lemma app_cons (a : ascii) (s t : string) : String a s +:+ t = String a (s +:+ t).
Proof. reflexivity. Qed.

Lemma app_nil_r (s : string) : s +:+ "" = s.
Proof. induction s as [|a s IH]; [reflexivity|]. by rewrite app_cons, IH. Qed.

Lemma app_assoc (s t u : string) : (s +:+ t) +:+ u = s +:+ (t +:+ u).
Proof. induction s as [|a s IH]; [reflexivity|]. by rewrite !app_cons, IH. Qed.

Lemma length_app (s t : string) :
  String.length (s +:+ t) = (String.length s + String.length t)%nat.
Proof. induction s as [|a s IH]; [reflexivity|]. rewrite app_cons. simpl. by rewrite IH. Qed.

(** *** Substrings *)

Lemma startswith_spec (p s : string) :
  startswith p s = true ↔ ∃ post, s = p +:+ post.
Proof.
  revert s. induction p as [|a p IH]; intros s; simpl.
  - split; [intros _; by exists s | done].
  - destruct s as [|b s].
    + split; [done | intros [post H]; rewrite app_cons in H; discriminate].
    + destruct (Ascii.eqb_spec a b) as [->|Hne].
      * rewrite IH. split; intros [post H]; exists post.
        -- by rewrite app_cons, H.
        -- rewrite app_cons in H. congruence.
      * split; [done | intros [post H]; rewrite app_cons in H; congruence].
Qed.

Lemma contains_spec (needle hay : string) :
  contains needle hay = true ↔ substring_of needle hay.
Proof.
  induction hay as [|b hay IH]; simpl.
  - destruct (startswith needle "") eqn:E.
    + split; [intros _ | done]. apply startswith_spec in E as [post E].
      by exists "", post.
    + split; [done|]. intros ([|c pre] & post & H).
      * rewrite app_nil_l in H. assert (startswith needle "" = true) as E'
          by (apply startswith_spec; eauto). congruence.
      * rewrite app_cons in H. discriminate.
  - destruct (startswith needle (String b hay)) eqn:E.
    + split; [intros _ | done]. apply startswith_spec in E as [post E].
      by exists "", post.
    + rewrite IH. split.
      * intros (pre & post & ->). exists (String b pre), post. by rewrite app_cons.
      * intros ([|c pre] & post & H).
        -- rewrite app_nil_l in H. assert (startswith needle (String b hay) = true) as E'
             by (apply startswith_spec; eauto). congruence.
        -- rewrite app_cons in H. injection H as -> ->. by exists pre, post.
Qed.

Lemma substring_of_app_r (needle pre s : string) :
  substring_of needle s → substring_of needle (pre +:+ s).
Proof.
  intros (p & q & ->). exists (pre +:+ p), q. by rewrite app_assoc.
Qed.

Lemma substring_of_app_l (needle s post : string) :
  substring_of needle s → substring_of needle (s +:+ post).
Proof.
  intros (p & q & ->). exists p, (q +:+ post). by rewrite !app_assoc.
Qed.

Lemma substring_of_refl (s : string) : substring_of s s.
Proof. exists "", "". by rewrite app_nil_l, app_nil_r. Qed.

(** *** Lower case *)

Lemma lower_app (s t : string) : lower (s +:+ t) = lower s +:+ lower t.
Proof. induction s as [|a s IH]; [reflexivity|]. rewrite !app_cons. simpl. by rewrite IH, app_cons. Qed.

Lemma lower_length (s : string) : String.length (lower s) = String.length s.
Proof. induction s as [|a s IH]; simpl; congruence. Qed.

(** Splitting the lower-cased text splits the text itself. *)
Lemma lower_app_inv (s u v : string) :
  lower s = u +:+ v → ∃ s1 s2, s = s1 +:+ s2 ∧ lower s1 = u ∧ lower s2 = v.
Proof.
  revert s. induction u as [|a u IH]; intros s H.
  - exists "", s. by rewrite app_nil_l in H.
  - destruct s as [|b s]; [discriminate|]. rewrite app_cons in H. simpl in H.
    injection H as Ha H. destruct (IH _ H) as (s1 & s2 & -> & <- & <-).
    exists (String b s1), s2. simpl. by rewrite Ha, app_cons.
Qed.

(** *** Decimal numbers *)

Lemma parse_str_nat (n : nat) : parse_nat (str_nat n) = Some n.
Proof.
  unfold parse_nat, str_nat, NilZero.string_of_uint.
  destruct (Nat.to_uint n) eqn:E; rewrite <- ?E;
    try (rewrite NilEmpty.usu; simpl; by rewrite DecimalNat.Unsigned.of_to).
  apply (f_equal Nat.of_uint) in E. rewrite DecimalNat.Unsigned.of_to in E.
  subst n. reflexivity.
Qed.

Lemma parse_zeros (k : nat) (s : string) : parse_nat (zeros k +:+ s) = parse_nat s.
Proof.
  induction k as [|k IH]; [reflexivity|]. simpl. rewrite app_cons.
  unfold parse_nat in *. simpl.
  destruct (NilEmpty.uint_of_string (zeros k +:+ s)) as [d|],
           (NilEmpty.uint_of_string s) as [d'|]; simpl in *; try done.
Qed.

Lemma parse_fmt03d (idx : nat) : parse_nat (fmt03d idx) = Some idx.
Proof. unfold fmt03d, zfill. by rewrite parse_zeros, parse_str_nat. Qed.

Lemma fmt03d_inj (i j : nat) : fmt03d i = fmt03d j → i = j.
Proof.
  intros H. apply (f_equal parse_nat) in H. rewrite !parse_fmt03d in H. congruence.
Qed.

Lemma compare_app (p a b : string) :
  String.compare (p +:+ a) (p +:+ b) = String.compare a b.
Proof.
  induction p as [|c p IH]; [reflexivity|]. rewrite !app_cons. simpl.
  assert (Ascii.compare c c = Eq) as -> by (unfold Ascii.compare; apply N.compare_refl). exact IH.
Qed.

Lemma ltb_app (p a b : string) : String.ltb (p +:+ a) (p +:+ b) = String.ltb a b.
Proof. unfold String.ltb. by rewrite compare_app. Qed.

Lemma all_ltb_sorted (l : list string) : all_ltb l = true → lex_sorted l.
Proof.
  induction l as [|x l IH]; intros H i j p q Hij Hi Hj.
  - by rewrite lookup_nil in Hi.
  - simpl in H. apply andb_prop in H as [Hx Hl].
    destruct j as [|j]; [lia|]. simpl in Hj. destruct i as [|i]; simpl in Hi.
    + injection Hi as ->. rewrite forallb_forall in Hx. apply Hx.
      apply list_elem_of_In. by eapply list_elem_of_lookup_2.
    + apply (IH Hl i j); [lia|done..].
Qed.

Lemma fmt_table_lookup (i : nat) : (i ≤ 999)%nat → fmt_table !! i = Some (fmt03d i).
Proof.
  intros Hi. unfold fmt_table. rewrite list_lookup_fmap, lookup_seq_lt by lia. reflexivity.
Qed.

Lemma fmt_table_sorted : all_ltb fmt_table = true.
Proof. vm_compute. reflexivity. Qed.

Lemma fmt_table_lengths : forallb (λ s, Nat.eqb (String.length s) 3) fmt_table = true.
Proof. vm_compute. reflexivity. Qed.

Lemma fmt03d_lt (i j : nat) :
  (i < j)%nat → (j ≤ 999)%nat → String.ltb (fmt03d i) (fmt03d j) = true.
Proof.
  intros Hij Hj. apply (all_ltb_sorted _ fmt_table_sorted i j); [done|..];
    apply fmt_table_lookup; lia.
Qed.

Lemma fmt03d_length_small (i : nat) : (i ≤ 999)%nat → String.length (fmt03d i) = 3%nat.
Proof.
  intros Hi. pose proof fmt_table_lengths as H. rewrite forallb_forall in H.
  apply Nat.eqb_eq, H, list_elem_of_In. eapply list_elem_of_lookup_2.
  by apply fmt_table_lookup.
Qed.

Lemma zeros_length (k : nat) : String.length (zeros k) = k.
Proof. induction k; simpl; congruence. Qed.

Lemma fmt03d_length_min (i : nat) : (3 ≤ String.length (fmt03d i))%nat.
Proof. unfold fmt03d, zfill. rewrite length_app, zeros_length. lia. Qed.

End StrFacts.

(** ** The segmenter *)

Section SplitFacts.

Variable write_fault : string → option string.
Variable path : string.

Lemma part_path_inj (p : string) (i j : nat) : part_path p i = part_path p j → i = j.
Proof.
  unfold part_path. intros H.
  apply String.app_inj in H. apply String.app_inj in H.
  by apply StrFacts.fmt03d_inj.
Qed.

Lemma part_path_neq_source (p : string) (i : nat) : part_path p i ≠ p.
Proof.
  unfold part_path. intros H. apply (f_equal String.length) in H.
  rewrite !StrFacts.length_app in H. simpl in H. lia.
Qed.

Lemma ceil_div_eq (n c : Z) : 0 < c → ceil_div n c = (n + c - 1) / c.
Proof.
  intros Hc. unfold ceil_div.
  pose proof (Z.div_mod n c ltac:(lia)) as Hdm.
  pose proof (Z.mod_pos_bound n c Hc) as Hb.
  generalize dependent (n mod c). generalize dependent (n / c). intros q r Hdm Hb.
  destruct (Z.eqb_spec r 0) as [E|E].
  - apply (Z.div_unique _ _ _ (c - 1)); [lia|]. subst. lia.
  - apply (Z.div_unique _ _ _ (r - 1)); [lia|]. subst. lia.
Qed.

Lemma with_parts_lookup_other (cs : list bytes) (idx : nat) (d : gmap string bytes) (q : string) :
  (∀ k, (k < length cs)%nat → q ≠ part_path path (idx + k)) →
  with_parts path idx cs d !! q = d !! q.
Proof.
  revert idx d. induction cs as [|c cs IH]; intros idx d Hq; [done|].
  simpl. rewrite IH.
  - apply lookup_insert_ne. specialize (Hq O ltac:(simpl; lia)).
    rewrite Nat.add_0_r in Hq. congruence.
  - intros k Hk. specialize (Hq (S k) ltac:(simpl; lia)).
    by replace (S idx + k)%nat with (idx + S k)%nat by lia.
Qed.

Lemma with_parts_lookup_source (cs : list bytes) (idx : nat) (d : gmap string bytes) :
  with_parts path idx cs d !! path = d !! path.
Proof.
  apply with_parts_lookup_other. intros k _ H. symmetry in H.
  by apply part_path_neq_source in H.
Qed.

Lemma with_parts_lookup_part (cs : list bytes) (idx : nat) (d : gmap string bytes)
    (k : nat) (c : bytes) :
  cs !! k = Some c →
  with_parts path idx cs d !! part_path path (idx + k) = Some c.
Proof.
  revert idx d k. induction cs as [|c0 cs IH]; intros idx d k Hk; [done|].
  destruct k as [|k]; simpl in *.
  - injection Hk as ->. rewrite Nat.add_0_r, with_parts_lookup_other.
    + apply lookup_insert_eq.
    + intros k _ H. apply part_path_inj in H. lia.
  - replace (idx + S k)%nat with (S idx + k)%nat by lia. by apply IH.
Qed.

Lemma concat_parts_read (d : gmap string bytes) (cs : list bytes) (idx : nat) :
  (∀ k c, cs !! k = Some c → d !! part_path path (idx + k) = Some c) →
  concat_parts d (map (part_path path) (seq idx (length cs))) = Some (concat cs).
Proof.
  revert idx. induction cs as [|c cs IH]; intros idx H; [done|].
  simpl. rewrite <- (Nat.add_0_r idx) at 1. rewrite (H O c eq_refl). simpl.
  rewrite IH; [done|]. intros k c' Hk.
  replace (S idx + k)%nat with (idx + S k)%nat by lia. by apply H.
Qed.

(** A run of the loop with the contents of the chunks: they are the consecutive
    windows of [chunk_size] bytes of the unread part of the file. *)
Lemma split_loop_run_full (fuel : nat) (chunk_size : Z) (f : file) (idx : nat)
    (parts : list string) (st : state) (data : bytes) :
  name f = path →
  disk st !! path = Some data →
  (length (drop (pos f) data) < fuel)%nat →
  ∃ r st' cs,
    split_loop write_fault fuel path chunk_size f idx parts st = (r, st') ∧
    disk st' = with_parts path idx cs (disk st) ∧
    trace st' = trace st ∧ sends st' = sends st ∧
    Forall (λ c, c ≠ [] ∧ (0 < chunk_size → Z.of_nat (length c) ≤ chunk_size)) cs ∧
    (∀ k, (k < length cs)%nat → write_fault (part_path path (idx + k)) = None) ∧
    ((r = Ret (parts ++ map (part_path path) (seq idx (length cs))) ∧
      (chunk_size ≠ 0 → concat cs = drop (pos f) data) ∧
      (0 < chunk_size →
       Z.of_nat (length cs) = (Z.of_nat (length (drop (pos f) data)) + chunk_size - 1) / chunk_size))
     ∨ (∃ e, r = Raise e ∧
             (write_fault (part_path path (idx + length cs)) = Some e ∨
              (chunk_size < -1 ∧ cs = [] ∧ e = read_length_error)))) ∧
    (0 < chunk_size →
     ∀ k c, cs !! k = Some c →
       c = take (Z.to_nat chunk_size) (drop (pos f + k * Z.to_nat chunk_size) data)).
Proof.
  revert f idx parts st. induction fuel as [|fuel IH]; intros f idx parts st Hf Hd Hfuel; [lia|].
  destruct f as [fname fpos]. simpl in Hf, Hfuel. subst fname.
  destruct (Z.ltb_spec chunk_size (-1)) as [Hneg|Hsize].
  { exists (Raise read_length_error), st, []. simpl.
    unfold mbind, io_mbind, io_bind, read.
    destruct (Z.ltb_spec chunk_size (-1)) as [_|?]; [|lia].
    split; [done|]. split; [done|]. split; [done|]. split; [done|]. split; [done|].
    split; [intros; lia|]. split; [|lia]. right. exists read_length_error.
    split; [done|]. by right. }
  remember (drop fpos data) as rest eqn:Hrest0.
  remember (if chunk_size <? 0 then rest else take (Z.to_nat chunk_size) rest) as chunk eqn:Hck.
  assert (split_loop write_fault (S fuel) path chunk_size (File path fpos) idx parts st =
          match chunk with
          | [] => (Ret parts, st)
          | _ :: _ =>
              match write_fault (part_path path idx) with
              | Some e => (Raise e, st)
              | None => split_loop write_fault fuel path chunk_size
                          (File path (fpos + length chunk)) (S idx)
                          (parts ++ [part_path path idx])
                          (set_disk (<[part_path path idx := chunk]> (disk st)) st)
              end
          end) as Hstep.
  { simpl. unfold mbind, io_mbind, io_bind, read, content. simpl.
    destruct (Z.ltb_spec chunk_size (-1)) as [?|_]; [lia|]. rewrite Hd. simpl.
    rewrite <- Hrest0, <- Hck. destruct chunk; [done|].
    unfold write_file. by destruct (write_fault (part_path path idx)). }
  rewrite Hstep. clear Hstep.
  assert (rest = chunk ++ drop (fpos + length chunk) data) as Hrest.
  { rewrite <- drop_drop, <- Hrest0, Hck. destruct (chunk_size <? 0).
    - by rewrite drop_all, app_nil_r.
    - rewrite length_take. destruct (decide (Z.to_nat chunk_size ≤ length rest)%nat).
      + by rewrite Nat.min_l, take_drop.
      + rewrite Nat.min_r by lia. by rewrite take_ge, drop_all, app_nil_r by lia. }
  remember (drop (fpos + length chunk) data) as tl eqn:Htl.
  assert (0 < chunk_size → Z.of_nat (length chunk) ≤ chunk_size) as Hbound.
  { intros Hpos. rewrite Hck. destruct (Z.ltb_spec chunk_size 0); [lia|].
    rewrite length_take. lia. }
  assert (0 < chunk_size → length chunk = Z.to_nat chunk_size ∨ tl = []) as Hfull.
  { intros Hpos. destruct (Z.ltb_spec chunk_size 0); [lia|].
    destruct (decide (Z.to_nat chunk_size ≤ length rest)%nat).
    - left. rewrite Hck, length_take. lia.
    - right. rewrite Hck, take_ge in Hrest by lia.
      apply (f_equal length) in Hrest. rewrite length_app in Hrest.
      destruct tl; [done|]. simpl in Hrest. lia. }
  assert (chunk_size ≠ 0 → chunk = [] → rest = []) as Hend.
  { intros Hnz Hnil. rewrite Hnil in Hck. destruct (Z.ltb_spec chunk_size 0); [done|].
    destruct rest; [done|]. destruct (Z.to_nat chunk_size) eqn:E; [lia|]. done. }
  assert (0 < chunk_size → chunk = take (Z.to_nat chunk_size) rest) as Hwin.
  { intros Hpos. rewrite Hck. by destruct (Z.ltb_spec chunk_size 0); [lia|]. }
  clear Hck.
  destruct chunk as [|b chunk'] eqn:Hchunk.
  - exists (Ret parts), st, []. simpl. rewrite app_nil_r.
    repeat split; try done; try (intros; lia). left. repeat split.
    + intros Hnz. by rewrite <- Hrest0, Hend.
    + intros Hpos. rewrite <- Hrest0, Hend by (done || lia). simpl.
      symmetry. apply Z.div_small. lia.
  - rewrite <- Hchunk in *.
    assert (chunk ≠ []) as Hne by (by rewrite Hchunk).
    destruct (write_fault (part_path path idx)) as [e|] eqn:Hw.
    + exists (Raise e), st, []. simpl. rewrite Nat.add_0_r.
      repeat split; try done; try (intros; lia). right. exists e. split; [done|]. by left.
    + assert (length chunk ≠ 0)%nat as Hlen by (rewrite Hchunk; simpl; lia).
      assert (length rest = length chunk + length tl)%nat as Hlr
        by (by rewrite Hrest at 1; rewrite length_app).
      destruct (IH (File path (fpos + length chunk)) (S idx) (parts ++ [part_path path idx])
                  (set_disk (<[part_path path idx := chunk]> (disk st)) st))
        as (r & st' & cs & Hrun & Hdisk & Htr & Hse & Hall & Hnf & Hres & Hwin').
      * done.
      * simpl. rewrite lookup_insert_ne; [done|]. apply part_path_neq_source.
      * simpl. rewrite <- Htl. lia.
      * exists r, st', (chunk :: cs). split; [done|]. simpl in *.
        split; [done|]. split; [done|]. split; [done|].
        split; [by constructor|].
        split.
        { intros [|k] Hk; [by rewrite Nat.add_0_r|].
          replace (idx + S k)%nat with (S (idx + k))%nat by lia. apply Hnf. lia. }
        split.
        { destruct Hres as [(-> & Hcat & Hcnt)|(e & -> & He)].
          - left. split; [by rewrite <- app_assoc|]. split.
            + intros Hnz. rewrite Hcat by done. by rewrite <- Htl, <- Hrest0.
            + intros Hpos. rewrite Nat2Z.inj_succ, Hcnt by done.
              rewrite <- Htl, <- Hrest0, Hlr.
              specialize (Hbound Hpos).
              destruct (Hfull Hpos) as [Hf| ->].
              * rewrite Hf, Nat2Z.inj_add, Z2Nat.id by lia.
                replace (chunk_size + Z.of_nat (length tl) + chunk_size - 1)
                  with (Z.of_nat (length tl) + chunk_size - 1 + 1 * chunk_size) by lia.
                rewrite Z.div_add by lia. lia.
              * simpl. rewrite Nat.add_0_r.
                rewrite (Z.div_small (0 + chunk_size - 1)) by lia.
                apply (Z.div_unique _ _ 1 (Z.of_nat (length chunk) - 1)); lia.
          - right. exists e. split; [done|]. destruct He as [He|[? _]]; [left|lia].
            by replace (idx + S (length cs))%nat with (S idx + length cs)%nat by lia. }
        intros Hpos [|k] c Hk; simpl in Hk.
        { injection Hk as <-. rewrite Nat.add_0_r, <- Hrest0. by apply Hwin. }
        specialize (Hwin' Hpos k c Hk).
        destruct (Hfull Hpos) as [Hf|Htl0].
        { rewrite Hwin'. f_equal. f_equal. rewrite Hf. lia. }
        exfalso. rewrite Forall_lookup in Hall. destruct (Hall k c Hk) as [Hc _].
        apply Hc. rewrite Hwin', <- drop_drop, <- Htl, Htl0. by rewrite drop_nil, take_nil.
Qed.

(** What a run of the loop does, whatever the faults: it writes some chunks
    [cs] of the unread bytes as consecutive parts and either returns their
    names or stops at the first part that cannot be written. *)
Lemma split_loop_run (fuel : nat) (chunk_size : Z) (f : file) (idx : nat)
    (parts : list string) (st : state) (data : bytes) :
  name f = path →
  disk st !! path = Some data →
  (length (drop (pos f) data) < fuel)%nat →
  ∃ r st' cs,
    split_loop write_fault fuel path chunk_size f idx parts st = (r, st') ∧
    disk st' = with_parts path idx cs (disk st) ∧
    trace st' = trace st ∧ sends st' = sends st ∧
    Forall (λ c, c ≠ [] ∧ (0 < chunk_size → Z.of_nat (length c) ≤ chunk_size)) cs ∧
    (∀ k, (k < length cs)%nat → write_fault (part_path path (idx + k)) = None) ∧
    ((r = Ret (parts ++ map (part_path path) (seq idx (length cs))) ∧
      (chunk_size ≠ 0 → concat cs = drop (pos f) data) ∧
      (0 < chunk_size →
       Z.of_nat (length cs) = (Z.of_nat (length (drop (pos f) data)) + chunk_size - 1) / chunk_size))
     ∨ (∃ e, r = Raise e ∧
             (write_fault (part_path path (idx + length cs)) = Some e ∨
              (chunk_size < -1 ∧ cs = [] ∧ e = read_length_error)))).
Proof.
  intros Hf Hd Hfuel.
  destruct (split_loop_run_full fuel chunk_size f idx parts st data Hf Hd Hfuel)
    as (r & st' & cs & H1 & H2 & H3 & H4 & H5 & H6 & H7 & _).
  by exists r, st', cs.
Qed.

End SplitFacts.

(** ** split_file as a whole *)

Section SegmenterFacts.

Variable write_fault : string → option string.

Lemma split_file_missing (path : string) (chunk_size : Z) (st : state) :
  disk st !! path = None →
  split_file write_fault path chunk_size st = (Raise (enoent path), st).
Proof.
  intros H. unfold split_file, mbind, io_mbind, io_bind, open_rb. by rewrite H.
Qed.

(** A run of [split_file] on a file that exists: the loop never hits its
    bound, and the chunks written are a prefix of the cutting of the file. *)
Lemma split_file_run (path : string) (chunk_size : Z) (st : state) (data : bytes) :
  disk st !! path = Some data →
  ∃ r st' cs,
    split_file write_fault path chunk_size st = (r, st') ∧
    disk st' = with_parts path 1 cs (disk st) ∧
    trace st' = trace st ∧ sends st' = sends st ∧
    Forall (λ c, c ≠ [] ∧ (0 < chunk_size → Z.of_nat (length c) ≤ chunk_size)) cs ∧
    (∀ k, (k < length cs)%nat → write_fault (part_path path (1 + k)) = None) ∧
    ((r = Ret (map (part_path path) (seq 1 (length cs))) ∧
      (chunk_size ≠ 0 → concat cs = data) ∧
      (0 < chunk_size →
       Z.of_nat (length cs) = (Z.of_nat (length data) + chunk_size - 1) / chunk_size))
     ∨ (∃ e, r = Raise e ∧
             (write_fault (part_path path (1 + length cs)) = Some e ∨
              (chunk_size < -1 ∧ cs = [] ∧ e = read_length_error)))).
Proof.
  intros Hd.
  destruct (split_loop_run write_fault path (S (length data)) chunk_size (File path 0) 1 [] st data)
    as (r & st' & cs & Hrun & H); [done|done|simpl; rewrite length_drop; lia|].
  exists r, st', cs. split; [|exact H].
  unfold split_file, mbind, io_mbind, io_bind, open_rb. rewrite Hd.
  unfold content. by rewrite Hd.
Qed.

(** [split_file_run] with the contents of the chunks. *)
Lemma split_file_run_full (path : string) (chunk_size : Z) (st : state) (data : bytes) :
  disk st !! path = Some data →
  ∃ r st' cs,
    split_file write_fault path chunk_size st = (r, st') ∧
    disk st' = with_parts path 1 cs (disk st) ∧
    trace st' = trace st ∧ sends st' = sends st ∧
    Forall (λ c, c ≠ [] ∧ (0 < chunk_size → Z.of_nat (length c) ≤ chunk_size)) cs ∧
    (∀ k, (k < length cs)%nat → write_fault (part_path path (1 + k)) = None) ∧
    ((r = Ret (map (part_path path) (seq 1 (length cs))) ∧
      (chunk_size ≠ 0 → concat cs = data) ∧
      (0 < chunk_size →
       Z.of_nat (length cs) = (Z.of_nat (length data) + chunk_size - 1) / chunk_size))
     ∨ (∃ e, r = Raise e ∧
             (write_fault (part_path path (1 + length cs)) = Some e ∨
              (chunk_size < -1 ∧ cs = [] ∧ e = read_length_error)))) ∧
    (0 < chunk_size →
     ∀ k c, cs !! k = Some c →
       c = take (Z.to_nat chunk_size) (drop (k * Z.to_nat chunk_size) data)).
Proof.
  intros Hd.
  destruct (split_loop_run_full write_fault path (S (length data)) chunk_size (File path 0) 1 [] st data)
    as (r & st' & cs & Hrun & H); [done|done|simpl; rewrite length_drop; lia|].
  exists r, st', cs. split; [|exact H].
  unfold split_file, mbind, io_mbind, io_bind, open_rb. rewrite Hd.
  unfold content. by rewrite Hd.
Qed.

Lemma split_file_not_out_of_fuel (path : string) (chunk_size : Z) (st st' : state) :
  split_file write_fault path chunk_size st ≠ (OutOfFuel, st').
Proof.
  destruct (disk st !! path) as [data|] eqn:Hd.
  - destruct (split_file_run path chunk_size st data Hd)
      as (r & st1 & cs & -> & _ & _ & _ & _ & _ & [(-> & _)|(e & -> & _)]); congruence.
  - rewrite split_file_missing by done. congruence.
Qed.

Lemma parts_lookup (path : string) (n k : nat) :
  (k < n)%nat → map (part_path path) (seq 1 n) !! k = Some (part_path path (1 + k)).
Proof.
  intros Hk. rewrite list_lookup_fmap, lookup_seq_lt by done. reflexivity.
Qed.

Lemma elem_of_parts (path : string) (n : nat) (q : string) :
  q ∈ map (part_path path) (seq 1 n) ↔ ∃ k, (k < n)%nat ∧ q = part_path path (1 + k).
Proof.
  rewrite list_elem_of_lookup. split.
  - intros [k Hk]. assert (k < n)%nat as Hlt.
    { apply lookup_lt_Some in Hk. by rewrite length_map, length_seq in Hk. }
    rewrite parts_lookup in Hk by done. exists k. split; congruence.
  - intros (k & Hk & ->). exists k. by apply parts_lookup.
Qed.

End SegmenterFacts.

(** ** Properties of the segmenter *)

(** C1 (round trip). For a file of N bytes and a positive chunk size C, when
    the parts can be written, [split_file] returns, the parts read back and
    concatenated in sequence order are the bytes of the file, and there are
    ceil(N/C) parts when N > 0 and none when N = 0. *)
Theorem split_file_roundtrip (write_fault : string → option string) (path : string)
    (chunk_size : Z) (st : state) (data : bytes) :
  disk st !! path = Some data →
  0 < chunk_size →
  (∀ i, write_fault (part_path path i) = None) →
  ∃ parts st',
    split_file write_fault path chunk_size st = (Ret parts, st') ∧
    concat_parts (disk st') parts = Some data ∧
    (data ≠ [] → Z.of_nat (length parts) = ceil_div (Z.of_nat (length data)) chunk_size) ∧
    (data = [] → length parts = 0%nat).
Proof.
  intros Hd Hpos Hwf.
  destruct (split_file_run write_fault path chunk_size st data Hd)
    as (r & st' & cs & Hrun & Hdisk & _ & _ & _ & _ & [(-> & Hcat & Hcnt)|(e & _ & [He|[? _]])]);
    [|by rewrite Hwf in He|lia].
  exists (map (part_path path) (seq 1 (length cs))), st'. split; [done|].
  specialize (Hcat ltac:(lia)). specialize (Hcnt Hpos).
  rewrite length_map, length_seq. split; [|split].
  - rewrite <- Hcat, Hdisk. apply concat_parts_read. intros k c Hk.
    by apply with_parts_lookup_part.
  - intros _. by rewrite ceil_div_eq.
  - intros ->. simpl in Hcnt. rewrite Z.div_small in Hcnt by lia. lia.
Qed.

Lemma split_file_roundtrip_witness :
  ∃ parts st',
    split_file no_fault "/tmp/a.mp4" 4 (start demo_disk) = (Ret parts, st') ∧
    concat_parts (disk st') parts = Some (bytes_of "0123456789") ∧
    (bytes_of "0123456789" ≠ [] →
     Z.of_nat (length parts) = ceil_div (Z.of_nat (length (bytes_of "0123456789"))) 4) ∧
    (bytes_of "0123456789" = [] → length parts = 0%nat).
Proof.
  apply (split_file_roundtrip no_fault "/tmp/a.mp4" 4 (start demo_disk) (bytes_of "0123456789")).
  - reflexivity.
  - lia.
  - reflexivity.
Defined.

(** C8 (frame). When [split_file] returns, the source file is still there
    with the same bytes, and every path that is not one of the returned
    parts holds what it held before. *)
Theorem split_file_keeps_source (write_fault : string → option string) (path : string)
    (chunk_size : Z) (st st' : state) (parts : list string) :
  split_file write_fault path chunk_size st = (Ret parts, st') →
  (∃ data, disk st !! path = Some data ∧ disk st' !! path = Some data) ∧
  (∀ q, q ∉ parts → disk st' !! q = disk st !! q).
Proof.
  intros Hrun. destruct (disk st !! path) as [data|] eqn:Hd;
    [|by rewrite split_file_missing in Hrun].
  destruct (split_file_run write_fault path chunk_size st data Hd)
    as (r & st1 & cs & Hrun' & Hdisk & _ & _ & _ & _ & Hres).
  rewrite Hrun in Hrun'. injection Hrun' as <- <-.
  destruct Hres as [(Hparts & _)|(e & ? & _)]; [|done]. injection Hparts as ->.
  split.
  - exists data. split; [done|]. by rewrite Hdisk, with_parts_lookup_source.
  - intros q Hq. rewrite Hdisk. apply with_parts_lookup_other. intros k Hk ->.
    apply Hq, elem_of_parts. by exists k.
Qed.

Lemma split_file_keeps_source_witness :
  (∃ data, disk (start demo_disk) !! "/tmp/a.mp4" = Some data ∧
           disk demo_split16 !! "/tmp/a.mp4" = Some data) ∧
  (∀ q, q ∉ ["/tmp/a.mp4.part001"] →
        disk demo_split16 !! q = disk (start demo_disk) !! q).
Proof.
  apply (split_file_keeps_source no_fault "/tmp/a.mp4" 16 (start demo_disk) demo_split16
           ["/tmp/a.mp4.part001"]).
  vm_compute. reflexivity.
Defined.

(** C9 (bounded parts). The chunk size of the bot is below the limit of the
    transport, and when [split_file] returns for a positive chunk size every
    part on the disk is nonempty and at most that many bytes long. *)
Theorem parts_within_chunk_size (write_fault : string → option string) (path : string)
    (chunk_size : Z) (st st' : state) (parts : list string) :
  split_file write_fault path chunk_size st = (Ret parts, st') →
  0 < chunk_size →
  CHUNK_SIZE < TG_SIZE_LIMIT ∧
  ∀ p, p ∈ parts →
    ∃ c, disk st' !! p = Some c ∧ 0 < Z.of_nat (length c) ≤ chunk_size.
Proof.
  intros Hrun Hpos. split; [reflexivity|].
  destruct (disk st !! path) as [data|] eqn:Hd;
    [|by rewrite split_file_missing in Hrun].
  destruct (split_file_run write_fault path chunk_size st data Hd)
    as (r & st1 & cs & Hrun' & Hdisk & _ & _ & Hall & _ & Hres).
  rewrite Hrun in Hrun'. injection Hrun' as <- <-.
  destruct Hres as [(Hparts & _)|(e & ? & _)]; [|done]. injection Hparts as ->.
  intros p (k & Hk & ->)%elem_of_parts.
  destruct (lookup_lt_is_Some_2 cs k Hk) as [c Hc].
  exists c. split.
  - rewrite Hdisk. by apply with_parts_lookup_part.
  - rewrite Forall_lookup in Hall. destruct (Hall k c Hc) as [Hne Hle].
    split; [|by apply Hle]. destruct c; [done|simpl; lia].
Qed.

Lemma parts_within_chunk_size_witness :
  CHUNK_SIZE < TG_SIZE_LIMIT ∧
  ∀ p, p ∈ ["/tmp/a.mp4.part001"; "/tmp/a.mp4.part002"; "/tmp/a.mp4.part003"] →
    ∃ c, disk demo_split4 !! p = Some c ∧ 0 < Z.of_nat (length c) ≤ 4.
Proof.
  apply (parts_within_chunk_size no_fault "/tmp/a.mp4" 4 (start demo_disk) demo_split4).
  - vm_compute. reflexivity.
  - lia.
Defined.

(** C6 as stated fails: with a thousand parts the last name has a suffix of
    four digits and sorts before its predecessor. *)
Lemma part_names_unsorted_at_1000 :
  ∃ parts st',
    split_file no_fault "/tmp/v" 1 (start {[ "/tmp/v" := replicate 1000 "x"%byte ]})
      = (Ret parts, st') ∧
    parts !! 998%nat = Some "/tmp/v.part999" ∧
    parts !! 999%nat = Some "/tmp/v.part1000" ∧
    ¬ lex_sorted parts.
Proof.
  destruct (split_file_run no_fault "/tmp/v" 1
              (start {[ "/tmp/v" := replicate 1000 "x"%byte ]}) (replicate 1000 "x"%byte))
    as (r & st' & cs & Hrun & _ & _ & _ & _ & _ & [(-> & _ & Hcnt)|(e & _ & [He|[? _]])]);
    [reflexivity| |discriminate|lia].
  specialize (Hcnt ltac:(lia)). rewrite length_replicate in Hcnt.
  assert (length cs = 1000%nat) as Hlen.
  { apply Nat2Z.inj. rewrite Hcnt. reflexivity. }
  rewrite Hlen in Hrun.
  exists (map (part_path "/tmp/v") (seq 1 1000)), st'.
  split; [exact Hrun|]. split; [reflexivity|]. split; [reflexivity|].
  intros H.
  specialize (H 998%nat 999%nat "/tmp/v.part999" "/tmp/v.part1000"
                ltac:(lia) eq_refl eq_refl).
  vm_compute in H. discriminate.
Qed.

(** C6, amended. When [split_file] returns, the k-th part (counting from 1)
    is named by the source path, ".part" and the decimal digits of k padded
    with zeros to at least three digits, exactly three up to part 999; and
    when there are at most 999 parts their names are in strictly increasing
    lexicographic order. *)
Theorem part_names (write_fault : string → option string) (path : string)
    (chunk_size : Z) (st st' : state) (parts : list string) :
  split_file write_fault path chunk_size st = (Ret parts, st') →
  (∀ k p, parts !! k = Some p → p = path +:+ ".part" +:+ Str.fmt03d (S k)) ∧
  (∀ i, parse_nat (Str.fmt03d i) = Some i ∧
        (3 ≤ String.length (Str.fmt03d i))%nat ∧
        ((i ≤ 999)%nat → String.length (Str.fmt03d i) = 3%nat)) ∧
  ((length parts ≤ 999)%nat → lex_sorted parts).
Proof.
  intros Hrun. destruct (disk st !! path) as [data|] eqn:Hd;
    [|by rewrite split_file_missing in Hrun].
  destruct (split_file_run write_fault path chunk_size st data Hd)
    as (r & st1 & cs & Hrun' & _ & _ & _ & _ & _ & Hres).
  rewrite Hrun in Hrun'. injection Hrun' as <- <-.
  destruct Hres as [(Hparts & _)|(e & ? & _)]; [|done]. injection Hparts as ->.
  rewrite length_map, length_seq.
  assert (∀ k p, map (part_path path) (seq 1 (length cs)) !! k = Some p →
                 (k < length cs)%nat ∧ p = part_path path (S k)) as Hlook.
  { intros k p Hk. assert (k < length cs)%nat as Hlt.
    { apply lookup_lt_Some in Hk. by rewrite length_map, length_seq in Hk. }
    rewrite parts_lookup in Hk by done. split; [done|]. by injection Hk as <-. }
  split; [|split].
  - intros k p Hk. by destruct (Hlook k p Hk) as [_ ->].
  - intros i. split; [apply StrFacts.parse_fmt03d|]. split.
    + apply StrFacts.fmt03d_length_min.
    + apply StrFacts.fmt03d_length_small.
  - intros Hn i j p q Hij Hi Hj.
    destruct (Hlook i p Hi) as [_ ->]. destruct (Hlook j q Hj) as [Hjn ->].
    unfold part_path. rewrite !StrFacts.ltb_app. apply StrFacts.fmt03d_lt; lia.
Qed.

Lemma part_names_witness :
  (∀ k p, ["/tmp/a.mp4.part001"; "/tmp/a.mp4.part002"; "/tmp/a.mp4.part003"] !! k = Some p →
          p = "/tmp/a.mp4" +:+ ".part" +:+ Str.fmt03d (S k)) ∧
  (∀ i, parse_nat (Str.fmt03d i) = Some i ∧
        (3 ≤ String.length (Str.fmt03d i))%nat ∧
        ((i ≤ 999)%nat → String.length (Str.fmt03d i) = 3%nat)) ∧
  ((length ["/tmp/a.mp4.part001"; "/tmp/a.mp4.part002"; "/tmp/a.mp4.part003"] ≤ 999)%nat →
   lex_sorted ["/tmp/a.mp4.part001"; "/tmp/a.mp4.part002"; "/tmp/a.mp4.part003"]).
Proof.
  apply (part_names no_fault "/tmp/a.mp4" 4 (start demo_disk) demo_split4).
  vm_compute. reflexivity.
Defined.

(** ** The upload loop *)

Section UploadFacts.

Variable upload_fault : nat → option string.

Lemma without_lookup (ps : list string) (d : gmap string bytes) (q : string) :
  without ps d !! q = if decide (q ∈ ps) then None else d !! q.
Proof.
  revert d. induction ps as [|p ps IH]; intros d; simpl.
  - destruct (decide (q ∈ [])) as [H|]; [by apply elem_of_nil in H|done].
  - fold (without ps (delete p d)). rewrite IH.
    destruct (decide (q ∈ ps)) as [Hin|Hnin], (decide (q ∈ p :: ps)) as [Hin'|Hnin'];
      try done.
    + exfalso. by apply Hnin', list_elem_of_further.
    + apply elem_of_cons in Hin' as [->|?]; [apply lookup_delete_eq|done].
    + rewrite lookup_delete_ne; [done|]. intros <-. apply Hnin', list_elem_of_here.
Qed.

Lemma upload_parts_run (pcs : list (string * bytes)) (st : state) :
  NoDup pcs.*1 →
  (∀ p c, (p, c) ∈ pcs → disk st !! p = Some c) →
  ∃ r st' k tail,
    upload_parts upload_fault pcs.*1 st = (r, st') ∧
    (k ≤ length pcs)%nat ∧
    trace st' = trace st ++ uploaded (take k pcs) ++ tail ∧
    disk st' = without (take k pcs).*1 (disk st) ∧
    (∀ i, (i < k)%nat → upload_fault (sends st + i) = None) ∧
    ((r = Ret tt ∧ k = length pcs ∧ tail = []) ∨
     (∃ e p c, r = Raise e ∧ pcs !! k = Some (p, c) ∧
               upload_fault (sends st + k) = Some e ∧
               tail = [SendDocument p (Str.basename p) c (Some e)])).
Proof.
  revert st. induction pcs as [|[p c] pcs IH]; intros st Hnd Hdisk.
  - exists (Ret tt), st, 0%nat, []. simpl. rewrite app_nil_r.
    repeat split; try done; try (intros; lia). by left.
  - simpl in Hnd. apply NoDup_cons in Hnd as [Hp Hnd].
    assert (disk st !! p = Some c) as Hpc by apply Hdisk, list_elem_of_here.
    destruct (upload_fault (sends st)) as [e|] eqn:Hup.
    + exists (Raise e), (State (disk st)
                (trace st ++ [SendDocument p (Str.basename p) c (Some e)]) (S (sends st))),
        0%nat, [SendDocument p (Str.basename p) c (Some e)].
      simpl. unfold mbind, io_mbind, io_bind, open_rb, send_document, content. simpl.
      rewrite !Hpc, Hup. simpl. rewrite ?Hpc, Nat.add_0_r. simpl.
      split; [done|]. split; [lia|]. split; [done|]. split; [done|].
      split; [intros; lia|]. right. by exists e, p, c.
    + set (st1 := State (delete p (disk st))
                    (trace st ++ [SendDocument p (Str.basename p) c None; Remove p])
                    (S (sends st))).
      destruct (IH st1) as (r & st' & k & tail & Hrun & Hk & Htr & Hd & Hnf & Hres).
      * done.
      * intros q c' Hq. simpl. rewrite lookup_delete_ne.
        -- by apply Hdisk, list_elem_of_further.
        -- intros <-. apply Hp. apply list_elem_of_fmap. by exists (p, c').
      * exists r, st', (S k), tail. simpl.
        split.
        { unfold mbind, io_mbind, io_bind, open_rb, send_document, content. simpl.
          rewrite !Hpc, Hup. simpl.
          unfold suppress, try_except, remove, log, set_disk. simpl. rewrite !Hpc. simpl.
          rewrite ?Hpc. simpl.
          rewrite <- Hrun. unfold st1. by rewrite <- app_assoc. }
        split; [lia|]. split.
        { rewrite Htr. unfold st1. simpl. by rewrite <- !app_assoc. }
        split; [by rewrite Hd|]. split.
        { intros [|i] Hi; [by rewrite Nat.add_0_r|].
          replace (sends st + S i)%nat with (sends st1 + i)%nat by (simpl; lia).
          apply Hnf. lia. }
        destruct Hres as [(-> & -> & ->)|(e & q & c' & -> & Hq & He & ->)].
        -- by left.
        -- right. exists e, q, c'. repeat split; try done.
           by replace (sends st + S k)%nat with (sends st1 + k)%nat by (simpl; lia).
Qed.

End UploadFacts.

(** ** The orchestrator *)

(** Unfolding the operations of the monad and of the world. *)
Ltac io_unfold :=
  cbv beta iota zeta delta
    [mbind mret io_mbind io_mret io_bind io_ret raise try_except try_finally suppress
     reply_text edit_text open_rb send_document remove getsize content log set_disk
     default from_option];
  cbn [disk trace sends name pos].

Section OrchestratorFacts.

Variable write_fault : string → option string.
Variable upload_fault : nat → option string.
Variable ytdlp : string → gmap string bytes → fetched * gmap string bytes.

(** The branches of [handle_download], from the state in which a request
    starts. *)
Lemma handle_download_eq (url : string) (d : gmap string bytes) :
  handle_download write_fault upload_fault ytdlp url (start d) =
  match ytdlp url d with
  | (DownloadFailed msg, d1) =>
      (Ret tt, State d1 [ReplyText (MsgQueued url);
                         EditText (MsgDownloadFailed msg
                                     (if needs_login msg then cookie_hint else ""))] 0)
  | (Downloaded filepath, d1) =>
      match d1 !! filepath with
      | None =>
          (Ret tt, State d1 [ReplyText (MsgQueued url);
                             EditText (MsgAccessFailed (enoent filepath))] 0)
      | Some data =>
          if Z.of_nat (length data) <=? TG_SIZE_LIMIT
          then direct_send upload_fault filepath (Z.of_nat (length data))
                 (State d1 [ReplyText (MsgQueued url)] 0)
          else split_and_send write_fault upload_fault filepath (Z.of_nat (length data))
                 (State d1 [ReplyText (MsgQueued url)] 0)
      end
  end.
Proof.
  unfold handle_download, mbind, io_mbind, io_bind, try_except, reply_text,
    download_with_ytdlp, getsize, edit_text, log, set_disk, start. simpl.
  destruct (ytdlp url d) as [[filepath|msg] d1]; simpl; [|done].
  destruct (d1 !! filepath) as [data|]; simpl; [|done].
  by destruct (Z.of_nat (length data) <=? TG_SIZE_LIMIT).
Qed.

Lemma direct_send_run (filepath : string) (size : Z) (st : state) (data : bytes) :
  disk st !! filepath = Some data →
  direct_send upload_fault filepath size st =
  (Ret tt,
   State (delete filepath (disk st))
         (trace st ++
          [EditText (MsgUploading (Str.basename filepath) (size / 1024 / 1024));
           SendDocument filepath (Str.basename filepath) data (upload_fault (sends st))] ++
          match upload_fault (sends st) with
          | Some e => [EditText (MsgUploadFailed e); Remove filepath]
          | None => [Remove filepath; EditText MsgDoneFile]
          end)
         (S (sends st))).
Proof.
  intros Hd.
  unfold direct_send. io_unfold. rewrite !Hd. io_unfold.
  destruct (upload_fault (sends st)) as [e|]; io_unfold; rewrite ?Hd; io_unfold;
    simpl; by rewrite <- !app_assoc.
Qed.

Lemma part_paths_NoDup (path : string) (n : nat) :
  NoDup (map (part_path path) (seq 1 n)).
Proof.
  apply NoDup_fmap_2; [|apply NoDup_seq]. intros i j. apply part_path_inj.
Qed.

Lemma part_files_fst (path : string) (cs : list bytes) :
  (zip (map (part_path path) (seq 1 (length cs))) cs).*1 = map (part_path path) (seq 1 (length cs)).
Proof. apply fst_zip. by rewrite length_map, length_seq. Qed.

Lemma part_files_on_disk (path : string) (cs : list bytes) (d : gmap string bytes)
    (p : string) (c : bytes) :
  (p, c) ∈ zip (map (part_path path) (seq 1 (length cs))) cs →
  with_parts path 1 cs d !! p = Some c.
Proof.
  intros (k & Hk)%list_elem_of_lookup.
  apply lookup_zip_with_Some in Hk as (p' & c' & [= <- <-] & Hp & Hc).
  assert (k < length cs)%nat as Hlt by (by eapply lookup_lt_Some).
  rewrite parts_lookup in Hp by done. injection Hp as <-.
  by apply with_parts_lookup_part.
Qed.

(** The runs of the split path: the split fails, or an upload fails, or
    everything goes through.  The chunks are nonempty and at most
    CHUNK_SIZE bytes long. *)
Lemma split_and_send_run_full (filepath : string) (size : Z) (st : state) (data : bytes) :
  disk st !! filepath = Some data →
  ∃ st' cs k closing,
    split_and_send write_fault upload_fault filepath size st = (Ret tt, st') ∧
    (k ≤ length cs)%nat ∧
    trace st' = trace st ++ [EditText (MsgSplitting (size / 1024 / 1024))] ++
                uploaded (take k (zip (map (part_path filepath) (seq 1 (length cs))) cs)) ++
                closing ∧
    (∀ i, (i < k)%nat → upload_fault (sends st + i) = None) ∧
    ((∃ e, write_fault (part_path filepath (1 + length cs)) = Some e ∧ k = 0%nat ∧
           closing = [EditText (MsgSplitFailed e)] ∧
           disk st' = with_parts filepath 1 cs (disk st) ∧
           ∃ st1, split_file write_fault filepath CHUNK_SIZE
                    (log (EditText (MsgSplitting (size / 1024 / 1024))) st) = (Raise e, st1))
     ∨ (∃ e p c,
           concat cs = data ∧
           Z.of_nat (length cs) = (Z.of_nat (length data) + CHUNK_SIZE - 1) / CHUNK_SIZE ∧
           zip (map (part_path filepath) (seq 1 (length cs))) cs !! k = Some (p, c) ∧
           upload_fault (sends st + k) = Some e ∧
           closing = [SendDocument p (Str.basename p) c (Some e); EditText (MsgSplitFailed e)] ∧
           disk st' = without (map (part_path filepath) (seq 1 k))
                        (with_parts filepath 1 cs (disk st)) ∧
           ∃ st1, split_file write_fault filepath CHUNK_SIZE
                    (log (EditText (MsgSplitting (size / 1024 / 1024))) st)
                  = (Ret (map (part_path filepath) (seq 1 (length cs))), st1))
     ∨ (concat cs = data ∧
        Z.of_nat (length cs) = (Z.of_nat (length data) + CHUNK_SIZE - 1) / CHUNK_SIZE ∧
        k = length cs ∧
        closing = [Remove filepath; EditText MsgDoneParts] ∧
        disk st' = delete filepath
                     (without (map (part_path filepath) (seq 1 (length cs)))
                        (with_parts filepath 1 cs (disk st))) ∧
        ∃ st1, split_file write_fault filepath CHUNK_SIZE
                    (log (EditText (MsgSplitting (size / 1024 / 1024))) st)
               = (Ret (map (part_path filepath) (seq 1 (length cs))), st1))) ∧
    Forall (λ c, c ≠ [] ∧ Z.of_nat (length c) ≤ CHUNK_SIZE) cs ∧
    (∀ j c, cs !! j = Some c →
       c = take (Z.to_nat CHUNK_SIZE) (drop (j * Z.to_nat CHUNK_SIZE) data)).
Proof.
  intros Hd.
  set (st0 := log (EditText (MsgSplitting (size / 1024 / 1024))) st).
  destruct (split_file_run_full write_fault filepath CHUNK_SIZE st0 data Hd)
    as (r & st1 & cs & Hsplit & Hdisk1 & Htr1 & Hse1 & Hall0 & _ & Hres & Hwin0).
  assert (Forall (λ c, c ≠ [] ∧ Z.of_nat (length c) ≤ CHUNK_SIZE) cs ∧
          (∀ j c, cs !! j = Some c →
             c = take (Z.to_nat CHUNK_SIZE) (drop (j * Z.to_nat CHUNK_SIZE) data))) as Hall.
  { split; [|by apply Hwin0].
    eapply Forall_impl; [exact Hall0|]. intros c [Hne Hle]. split; [done|]. by apply Hle. }
  clear Hwin0. remember (Z.to_nat CHUNK_SIZE) as w eqn:Hw in *. clear Hw.
  assert (split_and_send write_fault upload_fault filepath size st =
          try_except
            (parts ← split_file write_fault filepath CHUNK_SIZE;
             upload_parts upload_fault parts;;
             suppress (remove filepath);;
             edit_text MsgDoneParts)
            (λ e, edit_text (MsgSplitFailed e)) st0) as -> by reflexivity.
  unfold try_except, mbind, io_mbind, io_bind. rewrite Hsplit.
  destruct Hres as [(-> & Hcat & Hcnt)|(e & -> & [He|[? _]])]; [| |done].
  2:{ exists (log (EditText (MsgSplitFailed e)) st1), cs, 0%nat, [EditText (MsgSplitFailed e)].
      simpl. rewrite Htr1. simpl. rewrite <- app_assoc. simpl.
      split; [done|]. split; [lia|]. split; [done|]. split; [intros; lia|].
      split; [|done]. left. exists e. rewrite Hdisk1. repeat split; try done.
      by exists st1. }
  specialize (Hcat ltac:(done)). specialize (Hcnt ltac:(done)).
  set (pcs := zip (map (part_path filepath) (seq 1 (length cs))) cs).
  destruct (upload_parts_run upload_fault pcs st1)
    as (r & st2 & k & tail & Hup & Hk & Htr2 & Hdisk2 & Hnf & Hres).
  { unfold pcs. rewrite part_files_fst. apply part_paths_NoDup. }
  { intros p c Hpc. rewrite Hdisk1. by apply part_files_on_disk. }
  unfold pcs in Hup. rewrite part_files_fst in Hup. rewrite Hup.
  assert (length pcs = length cs) as Hlen.
  { unfold pcs. rewrite length_zip_with, length_map, length_seq. lia. }
  assert ((take k pcs).*1 = map (part_path filepath) (seq 1 k)) as Htake.
  { rewrite fmap_take. unfold pcs. rewrite part_files_fst.
    change (take k (part_path filepath <$> seq 1 (length cs)) = part_path filepath <$> seq 1 k).
    by rewrite <- fmap_take, take_seq, Nat.min_l by lia. }
  rewrite Hse1 in Hnf. simpl in Hnf.
  destruct Hres as [(-> & -> & ->)|(e & p & c & -> & Hpk & He & ->)].
  - assert (disk st2 !! filepath = Some data) as Hsrc.
    { rewrite Hdisk2, without_lookup, Htake, Hlen.
      destruct (decide _) as [Hin|_].
      - apply elem_of_parts in Hin as (j & _ & Hj). symmetry in Hj.
        by apply part_path_neq_source in Hj.
      - by rewrite Hdisk1, with_parts_lookup_source. }
    exists (log (EditText MsgDoneParts)
              (set_disk (delete filepath (disk st2)) (log (Remove filepath) st2))),
      cs, (length cs), [Remove filepath; EditText MsgDoneParts].
    split.
    { unfold suppress, try_except, remove, edit_text. by rewrite Hsrc. }
    split; [done|]. split.
    { simpl. rewrite Htr2, Htr1, Hlen. simpl. by rewrite <- !app_assoc. }
    split; [by rewrite <- Hlen|]. split; [|done].
    right. right. simpl. rewrite Hdisk2, Htake, Hlen, Hdisk1.
    repeat split; try done. by exists st1.
  - exists (log (EditText (MsgSplitFailed e)) st2), cs, k,
      [SendDocument p (Str.basename p) c (Some e); EditText (MsgSplitFailed e)].
    split; [done|]. split; [lia|]. split.
    { simpl. rewrite Htr2, Htr1. simpl. by rewrite <- !app_assoc. }
    split; [done|]. split; [|done].
    right. left. exists e, p, c. rewrite Hse1 in He. simpl in He.
    simpl. rewrite Hdisk2, Htake, Hdisk1. repeat split; try done. by exists st1.
Qed.


(** The runs of the split path: the split fails, or an upload fails, or
    everything goes through. *)
Lemma split_and_send_run (filepath : string) (size : Z) (st : state) (data : bytes) :
  disk st !! filepath = Some data →
  ∃ st' cs k closing,
    split_and_send write_fault upload_fault filepath size st = (Ret tt, st') ∧
    (k ≤ length cs)%nat ∧
    trace st' = trace st ++ [EditText (MsgSplitting (size / 1024 / 1024))] ++
                uploaded (take k (zip (map (part_path filepath) (seq 1 (length cs))) cs)) ++
                closing ∧
    (∀ i, (i < k)%nat → upload_fault (sends st + i) = None) ∧
    ((∃ e, write_fault (part_path filepath (1 + length cs)) = Some e ∧ k = 0%nat ∧
           closing = [EditText (MsgSplitFailed e)] ∧
           disk st' = with_parts filepath 1 cs (disk st))
     ∨ (∃ e p c,
           concat cs = data ∧
           Z.of_nat (length cs) = (Z.of_nat (length data) + CHUNK_SIZE - 1) / CHUNK_SIZE ∧
           zip (map (part_path filepath) (seq 1 (length cs))) cs !! k = Some (p, c) ∧
           upload_fault (sends st + k) = Some e ∧
           closing = [SendDocument p (Str.basename p) c (Some e); EditText (MsgSplitFailed e)] ∧
           disk st' = without (map (part_path filepath) (seq 1 k))
                        (with_parts filepath 1 cs (disk st)))
     ∨ (concat cs = data ∧
        Z.of_nat (length cs) = (Z.of_nat (length data) + CHUNK_SIZE - 1) / CHUNK_SIZE ∧
        k = length cs ∧
        closing = [Remove filepath; EditText MsgDoneParts] ∧
        disk st' = delete filepath
                     (without (map (part_path filepath) (seq 1 (length cs)))
                        (with_parts filepath 1 cs (disk st))))).
Proof.
  intros Hd.
  destruct (split_and_send_run_full filepath size st data Hd)
    as (st' & cs & k & closing & H1 & H2 & H3 & H4 & H5 & _).
  exists st', cs, k, closing. repeat split; try done.
  destruct H5 as [(e & ? & ? & ? & ? & _)
                 |[(e & p & c & ? & ? & ? & ? & ? & ? & _)|(? & ? & ? & ? & ? & _)]].
  - left. by exists e.
  - right. left. by exists e, p, c.
  - by right; right.
Qed.

End OrchestratorFacts.

(** ** Properties of the orchestrator *)

Lemma contains_lower_spec (kw msg : string) :
  Str.lower kw = kw →
  Str.contains kw (Str.lower msg) = true ↔ occurs_ignoring_case kw msg.
Proof.
  intros Hkw. rewrite StrFacts.contains_spec. unfold substring_of, occurs_ignoring_case,
    same_ignoring_case. rewrite Hkw. split.
  - intros (pre & post & H).
    apply StrFacts.lower_app_inv in H as (s1 & s23 & -> & H1 & H23).
    apply StrFacts.lower_app_inv in H23 as (s2 & s3 & -> & H2 & H3).
    by exists s1, s2, s3.
  - intros (pre & mid & post & -> & Hmid). exists (Str.lower pre), (Str.lower post).
    by rewrite !StrFacts.lower_app, Hmid.
Qed.

Lemma needs_login_spec (msg : string) :
  needs_login msg = true ↔ mentions_restriction msg.
Proof.
  unfold needs_login, mentions_restriction.
  rewrite !orb_true_iff, !contains_lower_spec by reflexivity. tauto.
Qed.

(** C5 (credential hint). When the download fails, the request ends with one
    failure message.  If the cause text has "age-restricted", "login" or
    "private" in it, in any case of the letters, the text of the message
    has both the cause text and the hint in it; otherwise it is just the
    failure prefix followed by the cause text. *)
Theorem download_failure_hint (write_fault : string → option string)
    (upload_fault : nat → option string)
    (ytdlp : string → gmap string bytes → fetched * gmap string bytes)
    (url : string) (d d1 : gmap string bytes) (msg : string) :
  ytdlp url d = (DownloadFailed msg, d1) →
  ∃ m,
    handle_download write_fault upload_fault ytdlp url (start d)
      = (Ret tt, State d1 [ReplyText (MsgQueued url); EditText m] 0) ∧
    (mentions_restriction msg →
       substring_of msg (render m) ∧ substring_of cookie_hint (render m)) ∧
    (¬ mentions_restriction msg → render m = "❌ Download failed: " +:+ msg).
Proof.
  intros Hy. rewrite handle_download_eq, Hy.
  exists (MsgDownloadFailed msg (if needs_login msg then cookie_hint else "")).
  split; [done|]. simpl. split.
  - intros Hm. apply needs_login_spec in Hm. rewrite Hm. split.
    + by exists "❌ Download failed: ", cookie_hint.
    + exists ("❌ Download failed: " +:+ msg), "".
      by rewrite StrFacts.app_nil_r, StrFacts.app_assoc.
  - intros Hm. destruct (needs_login msg) eqn:E.
    + by apply needs_login_spec in E.
    + by rewrite StrFacts.app_nil_r.
Qed.

Lemma download_failure_hint_witness :
  ∃ m,
    handle_download no_fault no_fault
      (fetch_fails "yt-dlp DownloadError: ERROR: Sign in to confirm your age; LOGIN required")
      "https://youtu.be/abc" (start ∅)
      = (Ret tt, State ∅ [ReplyText (MsgQueued "https://youtu.be/abc"); EditText m] 0) ∧
    (mentions_restriction "yt-dlp DownloadError: ERROR: Sign in to confirm your age; LOGIN required" →
       substring_of "yt-dlp DownloadError: ERROR: Sign in to confirm your age; LOGIN required" (render m) ∧
       substring_of cookie_hint (render m)) ∧
    (¬ mentions_restriction "yt-dlp DownloadError: ERROR: Sign in to confirm your age; LOGIN required" →
       render m = "❌ Download failed: " +:+
                  "yt-dlp DownloadError: ERROR: Sign in to confirm your age; LOGIN required").
Proof.
  apply (download_failure_hint no_fault no_fault
           (fetch_fails "yt-dlp DownloadError: ERROR: Sign in to confirm your age; LOGIN required")
           "https://youtu.be/abc" ∅ ∅).
  reflexivity.
Defined.

Lemma messages_app (l1 l2 : list event) : messages (l1 ++ l2) = messages l1 ++ messages l2.
Proof.
  induction l1 as [|[m|m|p fn c err|p] l1 IH]; simpl; by rewrite ?IH.
Qed.

Lemma uploads_app (l1 l2 : list event) : uploads (l1 ++ l2) = uploads l1 ++ uploads l2.
Proof.
  induction l1 as [|[m|m|p fn c err|p] l1 IH]; simpl; by rewrite ?IH.
Qed.

Lemma messages_uploaded (pcs : list (string * bytes)) : messages (uploaded pcs) = [].
Proof. induction pcs as [|[p c] pcs IH]; [done|exact IH]. Qed.

Lemma uploads_uploaded (pcs : list (string * bytes)) : uploads (uploaded pcs) = pcs.*1.
Proof. induction pcs as [|[p c] pcs IH]; [done|]. simpl. f_equal. exact IH. Qed.

(** A file that went out is removed by the very next event. *)
Lemma uploaded_lookup (pcs : list (string * bytes)) (n : nat) (p fn : string) (c : bytes)
    (err : option string) :
  uploaded pcs !! n = Some (SendDocument p fn c err) →
  uploaded pcs !! S n = Some (Remove p) ∧ p ∈ pcs.*1.
Proof.
  revert n. induction pcs as [|[p0 c0] pcs IH]; intros n Hn; [done|].
  destruct n as [|[|n]]; simpl in Hn.
  - injection Hn as -> _ _ _. split; [done|]. apply list_elem_of_here.
  - done.
  - destruct (IH n Hn) as [H1 H2]. split; [exact H1|]. by apply list_elem_of_further.
Qed.

(** C7 (message stream). Whatever the downloader, the disk and the transport
    do, [handle_download] returns, and the text messages of the request are
    the acknowledgement, then at most one progress message, then exactly
    one terminal message. *)
Theorem message_stream (write_fault : string → option string)
    (upload_fault : nat → option string)
    (ytdlp : string → gmap string bytes → fetched * gmap string bytes)
    (url : string) (d : gmap string bytes) :
  ∃ st' progress terminal,
    handle_download write_fault upload_fault ytdlp url (start d) = (Ret tt, st') ∧
    messages (trace st') = MsgQueued url :: progress ++ [terminal] ∧
    (length progress ≤ 1)%nat ∧
    Forall (λ m, kind_of m = Progress) progress ∧
    kind_of terminal = Terminal.
Proof.
  rewrite handle_download_eq.
  destruct (ytdlp url d) as [[filepath|msg] d1].
  2:{ eexists _, [], _. split; [done|]. simpl. repeat split; try done. lia. }
  destruct (d1 !! filepath) as [data|] eqn:Hd.
  2:{ eexists _, [], _. split; [done|]. simpl. repeat split; try done. lia. }
  destruct (Z.of_nat (length data) <=? TG_SIZE_LIMIT).
  - rewrite (direct_send_run upload_fault filepath _ _ data) by done.
    destruct (upload_fault _) as [e|]; eexists _, [_], _; (split; [done|]); simpl;
      (split; [done|]); (split; [lia|]); split; try done; by repeat constructor.
  - destruct (split_and_send_run write_fault upload_fault filepath
                (Z.of_nat (length data)) (State d1 [ReplyText (MsgQueued url)] 0) data Hd)
      as (st' & cs & k & closing & -> & _ & Htr & _ & Hres).
    assert (∃ terminal, messages closing = [terminal] ∧ kind_of terminal = Terminal)
      as (terminal & Hcl & Hkind).
    { destruct Hres as [(e & _ & _ & -> & _)|[(e & p & c & _ & _ & _ & _ & -> & _)|(_ & _ & _ & -> & _)]];
        by eexists. }
    exists st', [MsgSplitting (Z.of_nat (length data) / 1024 / 1024)], terminal.
    split; [done|]. rewrite Htr. simpl. rewrite messages_app, messages_uploaded, Hcl. simpl.
    split; [done|]. split; [lia|]. split; [by repeat constructor|done].
Qed.

Lemma part_files_lookup (path : string) (cs : list bytes) (k : nat) (p : string) (c : bytes) :
  zip (map (part_path path) (seq 1 (length cs))) cs !! k = Some (p, c) →
  p = part_path path (1 + k) ∧ cs !! k = Some c.
Proof.
  intros Hk. apply lookup_zip_with_Some in Hk as (p' & c' & [= <- <-] & Hp & Hc).
  assert (k < length cs)%nat as Hlt by (by eapply lookup_lt_Some).
  rewrite parts_lookup in Hp by done. by injection Hp as <-.
Qed.

Lemma part_files_take (path : string) (cs : list bytes) (k : nat) :
  (k ≤ length cs)%nat →
  (take k (zip (map (part_path path) (seq 1 (length cs))) cs)).*1
  = map (part_path path) (seq 1 k).
Proof.
  intros Hk. rewrite fmap_take, part_files_fst.
  change (take k (part_path path <$> seq 1 (length cs)) = part_path path <$> seq 1 k).
  by rewrite <- fmap_take, take_seq, Nat.min_l by lia.
Qed.

(** In the split path the files that go out are the parts 1, 2, ..., n of
    the download, in this order, for some n. *)
Lemma split_and_send_uploads (write_fault : string → option string)
    (upload_fault : nat → option string) (filepath : string) (size : Z)
    (st : state) (data : bytes) :
  disk st !! filepath = Some data →
  ∃ n, uploads (trace (split_and_send write_fault upload_fault filepath size st).2)
       = uploads (trace st) ++ map (part_path filepath) (seq 1 n).
Proof.
  intros Hd.
  destruct (split_and_send_run write_fault upload_fault filepath size st data Hd)
    as (st' & cs & k & closing & Hrun & Hk & Htr & _ & Hres).
  rewrite Hrun. simpl. rewrite Htr.
  rewrite !uploads_app, uploads_uploaded, part_files_take by done. simpl.
  destruct Hres as [(e & _ & _ & -> & _)|[(e & p & c & _ & _ & Hp & _ & -> & _)|(_ & _ & _ & -> & _)]];
    simpl.
  - exists k. by rewrite app_nil_r.
  - exists (S k). apply part_files_lookup in Hp as [-> _].
    change (map (part_path filepath) (seq 1 (S k))) with (part_path filepath <$> seq 1 (S k)).
    by rewrite seq_S, fmap_app.
  - exists k. by rewrite app_nil_r.
Qed.

(** The first [n] of the part names 1..m are the part names 1..n. *)
Lemma part_paths_take (path : string) (n m : nat) :
  (n ≤ m)%nat →
  take n (map (part_path path) (seq 1 m)) = map (part_path path) (seq 1 n).
Proof.
  intros Hn.
  change (take n (part_path path <$> seq 1 m) = part_path path <$> seq 1 n).
  by rewrite <- fmap_take, take_seq, Nat.min_l by lia.
Qed.

(** C3 (threshold). Once the download is on the disk, a file of at most
    TG_SIZE_LIMIT bytes goes out whole, as the only attachment of the
    request; no splitting is announced and no part is written: the disk only
    loses the download.  A longer file is announced as
    split and is never sent whole; [split_file] is run on it with
    CHUNK_SIZE, right after the announcement; when it raises, nothing is
    uploaded and the request ends with its error; when it returns, it returns
    the ceil(size / CHUNK_SIZE) >= 2 part names, and the files handed to the
    transport are the first n of them for some n >= 1: all of them, followed
    by the message of success, when no upload fails.  So a file of exactly
    TG_SIZE_LIMIT bytes is sent directly and one a byte longer is split. *)
Theorem size_threshold (write_fault : string → option string)
    (upload_fault : nat → option string)
    (ytdlp : string → gmap string bytes → fetched * gmap string bytes)
    (url : string) (d d1 : gmap string bytes) (filepath : string) (data : bytes) :
  ytdlp url d = (Downloaded filepath, d1) →
  d1 !! filepath = Some data →
  ∃ st',
    handle_download write_fault upload_fault ytdlp url (start d) = (Ret tt, st') ∧
    (Z.of_nat (length data) ≤ TG_SIZE_LIMIT →
       uploads (trace st') = [filepath] ∧
       trace st' !! 2%nat
         = Some (SendDocument filepath (Str.basename filepath) data (upload_fault 0%nat)) ∧
       (∀ mb, MsgSplitting mb ∉ messages (trace st')) ∧
       disk st' = delete filepath d1) ∧
    (TG_SIZE_LIMIT < Z.of_nat (length data) →
       messages (trace st') !! 1%nat
         = Some (MsgSplitting (Z.of_nat (length data) / 1024 / 1024)) ∧
       (filepath ∉ uploads (trace st')) ∧
       (∀ p, p ∈ uploads (trace st') → ∃ i, p = part_path filepath i) ∧
       ∃ r st1,
         split_file write_fault filepath CHUNK_SIZE
           (State d1 [ReplyText (MsgQueued url);
                      EditText (MsgSplitting (Z.of_nat (length data) / 1024 / 1024))] 0)
           = (r, st1) ∧
         ((∀ p, write_fault p = None) → ∃ parts, r = Ret parts) ∧
         (∀ e, r = Raise e →
            uploads (trace st') = [] ∧
            last (messages (trace st')) = Some (MsgSplitFailed e)) ∧
         (∀ parts, r = Ret parts →
            Z.of_nat (length parts) = ceil_div (Z.of_nat (length data)) CHUNK_SIZE ∧
            (2 ≤ length parts)%nat ∧
            parts = map (part_path filepath) (seq 1 (length parts)) ∧
            ∃ n, (1 ≤ n ≤ length parts)%nat ∧
                 uploads (trace st') = take n parts ∧
                 ((∀ j, upload_fault j = None) →
                  n = length parts ∧
                  last (messages (trace st')) = Some MsgDoneParts))).
Proof.
  intros Hy Hd. rewrite handle_download_eq, Hy, Hd.
  destruct (Z.leb_spec (Z.of_nat (length data)) TG_SIZE_LIMIT) as [Hle|Hgt].
  - rewrite (direct_send_run upload_fault filepath _ _ data) by done.
    eexists. split; [done|]. split; [|lia]. intros _. simpl.
    destruct (upload_fault 0%nat) as [e|]; simpl; (split; [done|]); (split; [done|]);
      (split; [|done]);
      intros mb H; repeat (apply elem_of_cons in H as [H|H]; [discriminate|]);
      by apply elem_of_nil in H.
  - destruct (split_and_send_run_full write_fault upload_fault filepath
                (Z.of_nat (length data)) (State d1 [ReplyText (MsgQueued url)] 0) data Hd)
      as (st' & cs & k & closing & Hrun & Hk & Htr & Hnf & Hres & _).
    rewrite Hrun. exists st'. split; [done|]. split; [lia|]. intros _.
    assert (uploads (trace st') = map (part_path filepath) (seq 1 k) ++ uploads closing)
      as Hups.
    { rewrite Htr. simpl. by rewrite !uploads_app, uploads_uploaded, part_files_take. }
    assert (messages (trace st')
            = [MsgQueued url; MsgSplitting (Z.of_nat (length data) / 1024 / 1024)]
              ++ messages closing) as Hmsgs.
    { rewrite Htr. simpl. by rewrite messages_app, messages_uploaded. }
    assert (Z.of_nat (length cs)
            = (Z.of_nat (length data) + CHUNK_SIZE - 1) / CHUNK_SIZE →
            Z.of_nat (length cs) = ceil_div (Z.of_nat (length data)) CHUNK_SIZE ∧
            (2 ≤ length cs)%nat) as Hcount.
    { intros Hc. split; [by rewrite ceil_div_eq|].
      cut (2 ≤ Z.of_nat (length cs)); [lia|]. rewrite Hc.
      apply Z.div_le_lower_bound; unfold CHUNK_SIZE, TG_SIZE_LIMIT in *; lia. }
    assert (∃ n, uploads (trace st') = map (part_path filepath) (seq 1 n)) as [m Hm].
    { rewrite Hups.
      destruct Hres as [(e & _ & _ & -> & _)
                       |[(e & p & c & _ & _ & Hp & _ & -> & _)|(_ & _ & _ & -> & _)]]; simpl.
      - exists k. by rewrite app_nil_r.
      - exists (S k). apply part_files_lookup in Hp as [-> _].
        change (map (part_path filepath) (seq 1 (S k)))
          with (part_path filepath <$> seq 1 (S k)).
        by rewrite seq_S, fmap_app.
      - exists k. by rewrite app_nil_r. }
    split; [by rewrite Hmsgs|]. split.
    { rewrite Hm. intros (j & _ & Hj)%elem_of_parts. symmetry in Hj.
      by apply part_path_neq_source in Hj. }
    split.
    { rewrite Hm. intros p (j & _ & ->)%elem_of_parts. by eexists. }
    destruct Hres as [(e & He & -> & -> & _ & st1 & Hsf)
                     |[(e & p & c & _ & Hcnt & Hp & He & -> & _ & st1 & Hsf)
                      |(_ & Hcnt & -> & -> & _ & st1 & Hsf)]].
    + exists (Raise e), st1. split; [exact Hsf|]. split.
      { intros Hw. by rewrite Hw in He. }
      split; [|by intros parts [=]].
      intros e' [= <-]. by rewrite Hups, Hmsgs.
    + destruct (Hcount Hcnt) as [Hceil Htwo].
      apply part_files_lookup in Hp as [-> Hc].
      assert (k < length cs)%nat as Hlt by (by eapply lookup_lt_Some).
      exists (Ret (map (part_path filepath) (seq 1 (length cs)))), st1.
      split; [exact Hsf|]. split; [by eexists|]. split; [by intros e' [=]|].
      intros parts [= <-]. rewrite length_map, length_seq.
      split; [done|]. split; [done|]. split; [done|].
      exists (S k). split; [lia|]. split.
      * rewrite part_paths_take by lia. rewrite Hups. cbn [uploads].
        change (map (part_path filepath) (seq 1 (S k)))
          with (part_path filepath <$> seq 1 (S k)).
        by rewrite seq_S, fmap_app.
      * intros Hall. simpl in He. by rewrite Hall in He.
    + destruct (Hcount Hcnt) as [Hceil Htwo].
      exists (Ret (map (part_path filepath) (seq 1 (length cs)))), st1.
      split; [exact Hsf|]. split; [by eexists|]. split; [by intros e' [=]|].
      intros parts [= <-]. rewrite length_map, length_seq.
      split; [done|]. split; [done|]. split; [done|].
      exists (length cs). split; [lia|]. split.
      * rewrite part_paths_take by lia. rewrite Hups. simpl. by rewrite app_nil_r.
      * intros _. split; [done|]. by rewrite Hmsgs.
Qed.

Lemma limit_file_length : Z.of_nat (length limit_file) = TG_SIZE_LIMIT.
Proof.
  unfold limit_file. rewrite length_replicate. apply Z2Nat.id. unfold TG_SIZE_LIMIT. lia.
Qed.

Lemma big_file_length : Z.of_nat (length big_file) = TG_SIZE_LIMIT + 1.
Proof.
  unfold big_file. rewrite length_replicate. apply Z2Nat.id. unfold TG_SIZE_LIMIT. lia.
Qed.

(** The boundary: a download of exactly TG_SIZE_LIMIT bytes goes out whole;
    one of TG_SIZE_LIMIT + 1 bytes is split, and its two parts go out. *)
Lemma size_threshold_witness :
  (∃ st',
     handle_download no_fault no_fault (fetch_gives "/tmp/v.mp4") "https://youtu.be/abc"
       (start {[ "/tmp/v.mp4" := limit_file ]}) = (Ret tt, st') ∧
     uploads (trace st') = ["/tmp/v.mp4"] ∧
     trace st' !! 2%nat = Some (SendDocument "/tmp/v.mp4" (Str.basename "/tmp/v.mp4") limit_file None) ∧
     (∀ mb, MsgSplitting mb ∉ messages (trace st')) ∧
     disk st' = delete "/tmp/v.mp4" {[ "/tmp/v.mp4" := limit_file ]}) ∧
  (∃ st',
     handle_download no_fault no_fault (fetch_gives "/tmp/v.mp4") "https://youtu.be/abc"
       (start {[ "/tmp/v.mp4" := big_file ]}) = (Ret tt, st') ∧
     messages (trace st') !! 1%nat
       = Some (MsgSplitting (Z.of_nat (length big_file) / 1024 / 1024)) ∧
     ("/tmp/v.mp4" ∉ uploads (trace st')) ∧
     (∀ p, p ∈ uploads (trace st') → ∃ i, p = part_path "/tmp/v.mp4" i) ∧
     uploads (trace st') = ["/tmp/v.mp4.part001"; "/tmp/v.mp4.part002"] ∧
     last (messages (trace st')) = Some MsgDoneParts).
Proof.
  split.
  - destruct (size_threshold no_fault no_fault (fetch_gives "/tmp/v.mp4") "https://youtu.be/abc"
                {[ "/tmp/v.mp4" := limit_file ]} {[ "/tmp/v.mp4" := limit_file ]}
                "/tmp/v.mp4" limit_file eq_refl (lookup_singleton_eq _ _))
      as (st' & Hrun & Hdirect & _).
    exists st'. split; [exact Hrun|]. apply Hdirect. rewrite limit_file_length. lia.
  - destruct (size_threshold no_fault no_fault (fetch_gives "/tmp/v.mp4") "https://youtu.be/abc"
                {[ "/tmp/v.mp4" := big_file ]} {[ "/tmp/v.mp4" := big_file ]}
                "/tmp/v.mp4" big_file eq_refl (lookup_singleton_eq _ _))
      as (st' & Hrun & _ & Hsplit).
    exists st'. split; [exact Hrun|].
    destruct Hsplit as (Hmsg & Hwhole & Hparts & r & st1 & _ & Hok & _ & Hret).
    { rewrite big_file_length. lia. }
    split; [exact Hmsg|]. split; [exact Hwhole|]. split; [exact Hparts|].
    destruct (Hok (λ _, eq_refl)) as [parts ->].
    destruct (Hret parts eq_refl) as (Hlen & _ & Hnames & n & _ & Hups & Hall).
    destruct (Hall (λ _, eq_refl)) as [-> Hlast].
    split; [|exact Hlast].
    rewrite big_file_length in Hlen.
    assert (ceil_div (TG_SIZE_LIMIT + 1) CHUNK_SIZE = 2) as E by reflexivity.
    rewrite E in Hlen.
    assert (length parts = 2%nat) as Hl by lia.
    rewrite firstn_all in Hups. rewrite Hups, Hnames, Hl. reflexivity.
Defined.

(** C4 (ordering). In the split path the files given to the transport are
    the parts 1, 2, ..., n of the download in this order, so that the upload
    of part i is issued before the upload of part j whenever i < j; and when
    nothing fails, all ceil(size / CHUNK_SIZE) parts go out. *)
Theorem parts_uploaded_in_order (write_fault : string → option string)
    (upload_fault : nat → option string)
    (ytdlp : string → gmap string bytes → fetched * gmap string bytes)
    (url : string) (d d1 : gmap string bytes) (filepath : string) (data : bytes) :
  ytdlp url d = (Downloaded filepath, d1) →
  d1 !! filepath = Some data →
  TG_SIZE_LIMIT < Z.of_nat (length data) →
  ∃ st' n,
    handle_download write_fault upload_fault ytdlp url (start d) = (Ret tt, st') ∧
    uploads (trace st') = map (part_path filepath) (seq 1 n) ∧
    (∀ a b i j,
       uploads (trace st') !! a = Some (part_path filepath i) →
       uploads (trace st') !! b = Some (part_path filepath j) →
       (i < j)%nat → (a < b)%nat) ∧
    ((∀ p, write_fault p = None) → (∀ k, upload_fault k = None) →
     Z.of_nat n = ceil_div (Z.of_nat (length data)) CHUNK_SIZE).
Proof.
  intros Hy Hd Hgt. rewrite handle_download_eq, Hy, Hd.
  destruct (Z.leb_spec (Z.of_nat (length data)) TG_SIZE_LIMIT) as [Hle|_]; [lia|].
  destruct (split_and_send_run write_fault upload_fault filepath
              (Z.of_nat (length data)) (State d1 [ReplyText (MsgQueued url)] 0) data Hd)
    as (st' & cs & k & closing & Hrun & Hk & Htr & _ & Hres).
  assert (∃ n, uploads (trace st') = map (part_path filepath) (seq 1 n) ∧
               ((∀ p, write_fault p = None) → (∀ k, upload_fault k = None) →
                Z.of_nat n = ceil_div (Z.of_nat (length data)) CHUNK_SIZE))
    as (n & Hups & Hall).
  { rewrite Htr. simpl. rewrite !uploads_app, uploads_uploaded, part_files_take by done.
    destruct Hres as [(e & He & _ & -> & _)|[(e & p & c & _ & _ & Hp & He & -> & _)|(_ & Hcnt & -> & -> & _)]];
      simpl.
    - exists k. rewrite app_nil_r. split; [done|]. intros Hwf _. by rewrite Hwf in He.
    - exists (S k). apply part_files_lookup in Hp as [-> _]. split.
      + change (map (part_path filepath) (seq 1 (S k))) with (part_path filepath <$> seq 1 (S k)).
        by rewrite seq_S, fmap_app.
      + intros _ Huf. by rewrite Huf in He.
    - exists (length cs). rewrite app_nil_r. split; [done|]. intros _ _.
      rewrite ceil_div_eq; [done|reflexivity]. }
  exists st', n. split; [done|]. split; [done|]. split; [|done].
  rewrite Hups. intros a b i j Ha Hb Hij.
  assert (∀ x y, map (part_path filepath) (seq 1 n) !! x = Some (part_path filepath y) →
                 y = S x) as Hidx.
  { intros x y Hx. assert (x < n)%nat as Hlt.
    { apply lookup_lt_Some in Hx. by rewrite length_map, length_seq in Hx. }
    rewrite parts_lookup in Hx by done. injection Hx as Hx. by apply part_path_inj in Hx. }
  apply Hidx in Ha, Hb. lia.
Qed.

Lemma parts_uploaded_in_order_witness :
  ∃ st' n,
    handle_download no_fault no_fault (fetch_gives "/tmp/v.mp4") "https://youtu.be/abc"
      (start {[ "/tmp/v.mp4" := big_file ]}) = (Ret tt, st') ∧
    uploads (trace st') = map (part_path "/tmp/v.mp4") (seq 1 n) ∧
    (∀ a b i j,
       uploads (trace st') !! a = Some (part_path "/tmp/v.mp4" i) →
       uploads (trace st') !! b = Some (part_path "/tmp/v.mp4" j) →
       (i < j)%nat → (a < b)%nat) ∧
    ((∀ p : string, @no_fault string p = None) → (∀ k : nat, @no_fault nat k = None) →
     Z.of_nat n = ceil_div (Z.of_nat (length big_file)) CHUNK_SIZE).
Proof.
  apply (parts_uploaded_in_order no_fault no_fault (fetch_gives "/tmp/v.mp4")
           "https://youtu.be/abc" {[ "/tmp/v.mp4" := big_file ]} {[ "/tmp/v.mp4" := big_file ]}
           "/tmp/v.mp4" big_file).
  - reflexivity.
  - apply lookup_singleton_eq.
  - rewrite big_file_length. lia.
Defined.

Lemma uploaded_lookup_ok (pcs : list (string * bytes)) (n : nat) (p fn : string) (c : bytes)
    (err : option string) :
  uploaded pcs !! n = Some (SendDocument p fn c err) → err = None.
Proof.
  revert n. induction pcs as [|[p0 c0] pcs IH]; intros n Hn; [done|].
  destruct n as [|[|n]]; simpl in Hn; [by injection Hn|done|by eapply IH].
Qed.

(** The events of the file at position [j] of [pcs]: sent, then removed. *)
Lemma uploaded_lookup_at (pcs : list (string * bytes)) (j : nat) (p : string) (c : bytes) :
  pcs !! j = Some (p, c) →
  uploaded pcs !! (2 * j)%nat = Some (SendDocument p (Str.basename p) c None) ∧
  uploaded pcs !! S (2 * j) = Some (Remove p).
Proof.
  revert j. induction pcs as [|[p0 c0] pcs IH]; intros j Hj; [done|].
  destruct j as [|j].
  - injection Hj as -> ->. done.
  - replace (2 * S j)%nat with (S (S (2 * j))) by lia. apply (IH j Hj).
Qed.

Lemma length_uploaded (pcs : list (string * bytes)) :
  length (uploaded pcs) = (2 * length pcs)%nat.
Proof.
  induction pcs as [|pc pcs IH]; [done|].
  change (uploaded (pc :: pcs))
    with (SendDocument pc.1 (Str.basename pc.1) pc.2 None :: Remove pc.1 :: uploaded pcs).
  simpl length. rewrite IH. lia.
Qed.

(** C10 (a part is removed as soon as it is sent). In the split path, an
    upload that the transport accepted is followed at once by the removal of
    the file that was sent, which is not on the disk at the end; and an
    upload that failed is that of a part k+1 whose predecessors 1..k are
    gone from the disk.  These uploads do take place: when the parts can be
    written, part j+1 (of the ceil(size / CHUNK_SIZE) parts) is handed to
    the transport as soon as the j parts before it were accepted, that is
    after exactly j pairs of an upload and a removal, with the bytes
    j*CHUNK_SIZE .. (j+1)*CHUNK_SIZE of the download; and when it is
    accepted, the next event is its removal, before any further upload. *)
Theorem part_removed_after_upload (write_fault : string → option string)
    (upload_fault : nat → option string)
    (ytdlp : string → gmap string bytes → fetched * gmap string bytes)
    (url : string) (d d1 : gmap string bytes) (filepath : string) (data : bytes) :
  ytdlp url d = (Downloaded filepath, d1) →
  d1 !! filepath = Some data →
  TG_SIZE_LIMIT < Z.of_nat (length data) →
  ∃ st',
    handle_download write_fault upload_fault ytdlp url (start d) = (Ret tt, st') ∧
    (∀ n p fn c,
       trace st' !! n = Some (SendDocument p fn c None) →
       trace st' !! S n = Some (Remove p) ∧ disk st' !! p = None) ∧
    (∀ n p fn c e,
       trace st' !! n = Some (SendDocument p fn c (Some e)) →
       ∃ k, p = part_path filepath (S k) ∧
            ∀ i, (i < k)%nat → disk st' !! part_path filepath (S i) = None) ∧
    (∀ j,
       (∀ p, write_fault p = None) →
       Z.of_nat j < ceil_div (Z.of_nat (length data)) CHUNK_SIZE →
       (∀ i, (i < j)%nat → upload_fault i = None) →
       trace st' !! (2 + 2 * j)%nat
         = Some (SendDocument (part_path filepath (S j))
                   (Str.basename (part_path filepath (S j)))
                   (take (Z.to_nat CHUNK_SIZE) (drop (j * Z.to_nat CHUNK_SIZE) data))
                   (upload_fault j)) ∧
       (upload_fault j = None →
        trace st' !! (3 + 2 * j)%nat = Some (Remove (part_path filepath (S j))) ∧
        disk st' !! part_path filepath (S j) = None)).
Proof.
  intros Hy Hd Hgt. rewrite handle_download_eq, Hy, Hd.
  destruct (Z.leb_spec (Z.of_nat (length data)) TG_SIZE_LIMIT) as [Hle|_]; [lia|].
  destruct (split_and_send_run_full write_fault upload_fault filepath
              (Z.of_nat (length data)) (State d1 [ReplyText (MsgQueued url)] 0) data Hd)
    as (st' & cs & k & closing & Hrun & Hk & Htr & Hnf & Hres & _ & Hwin).
  remember (Z.to_nat CHUNK_SIZE) as w eqn:Hw in *. clear Hw.
  exists st'. split; [done|]. simpl in Htr.
  set (pcs := zip (map (part_path filepath) (seq 1 (length cs))) cs) in *.
  set (sent := take k pcs) in *.
  assert (sent.*1 = map (part_path filepath) (seq 1 k)) as Hsent
    by (by apply part_files_take).
  assert (∀ p, p ∈ sent.*1 → disk st' !! p = None) as Hgone.
  { intros p Hp.
    destruct Hres as [(e & _ & -> & _)
                     |[(e & q & c & _ & _ & _ & _ & _ & -> & _)|(_ & _ & -> & _ & -> & _)]].
    - by apply elem_of_nil in Hp.
    - rewrite without_lookup, <- Hsent. by rewrite decide_True.
    - rewrite lookup_delete. destruct (decide (filepath = p)); [done|].
      rewrite without_lookup, <- Hsent. by rewrite decide_True. }
  split; [|split].
  - intros n p fn c Hn. rewrite Htr in Hn |- *.
    destruct n as [|[|n]]; [done..|]. simpl in Hn |- *.
    apply lookup_app_Some in Hn as [Hn|[_ Hn]].
    + destruct (uploaded_lookup _ _ _ _ _ _ Hn) as [Hrm Hp].
      split; [by apply lookup_app_l_Some|by apply Hgone].
    + exfalso. revert Hn. generalize (n - length (uploaded sent))%nat. intros m Hm.
      destruct Hres as [(e & _ & _ & -> & _)|[(e & q & c' & _ & _ & _ & _ & -> & _)|(_ & _ & _ & -> & _)]];
        by destruct m as [|[|m]].
  - intros n p fn c e Hn. rewrite Htr in Hn.
    destruct n as [|[|n]]; [done..|]. simpl in Hn.
    apply lookup_app_Some in Hn as [Hn|[_ Hn]].
    + by apply uploaded_lookup_ok in Hn.
    + revert Hn. generalize (n - length (uploaded sent))%nat. intros m Hm.
      destruct Hres as [(e' & _ & _ & -> & _)|[(e' & q & c' & _ & _ & Hq & _ & -> & _)|(_ & _ & _ & -> & _)]];
        destruct m as [|[|m]]; try done.
      simpl in Hm. injection Hm as -> _ _ _.
      apply part_files_lookup in Hq as [-> _]. exists k. split; [done|].
      intros i Hi. apply Hgone. rewrite Hsent. apply elem_of_parts. by exists i.
  - intros j Hwf Hj Hok.
    assert (length pcs = length cs) as Hlen.
    { unfold pcs. rewrite length_zip_with, length_map, length_seq. lia. }
    assert (length (uploaded sent) = (2 * k)%nat) as Hlsent.
    { unfold sent. rewrite length_uploaded, length_take. lia. }
    assert (Z.of_nat (length cs)
            = (Z.of_nat (length data) + CHUNK_SIZE - 1) / CHUNK_SIZE →
            (j < length cs)%nat) as Hcount.
    { intros Hc. rewrite ceil_div_eq in Hj by done. lia. }
    assert (∀ c, (j < k)%nat → pcs !! j = Some (part_path filepath (S j), c) →
            trace st' !! (2 + 2 * j)%nat
              = Some (SendDocument (part_path filepath (S j))
                        (Str.basename (part_path filepath (S j))) c (upload_fault j)) ∧
            (upload_fault j = None →
             trace st' !! (3 + 2 * j)%nat = Some (Remove (part_path filepath (S j))) ∧
             disk st' !! part_path filepath (S j) = None)) as Hsentj.
    { intros c Hjk Hc.
      assert (sent !! j = Some (part_path filepath (S j), c)) as Hs.
      { unfold sent. by rewrite lookup_take_lt. }
      destruct (uploaded_lookup_at sent j _ _ Hs) as [H1 H2].
      rewrite (Hnf j Hjk : upload_fault j = None). rewrite Htr.
      split; [by apply (lookup_app_l_Some _ _ _ _ H1)|]. intros _.
      split; [by apply (lookup_app_l_Some _ _ _ _ H2)|].
      apply Hgone. rewrite Hsent. apply elem_of_parts. exists j. by split. }
    assert (∀ c, (j < length cs)%nat → cs !! j = Some c →
            pcs !! j = Some (part_path filepath (S j), c)) as Hpcs.
    { intros c Hlt Hc. unfold pcs. apply lookup_zip_with_Some.
      exists (part_path filepath (S j)), c. split; [done|]. split; [|done].
      by apply parts_lookup. }
    destruct Hres as [(e & He & _)
                     |[(e & p & c & _ & Hcnt & Hp & He & -> & _)|(_ & Hcnt & -> & _)]].
    + by rewrite Hwf in He.
    + specialize (Hcount Hcnt). simpl in He.
      destruct (lookup_lt_is_Some_2 cs j Hcount) as [cj Hcj].
      rewrite <- (Hwin j cj Hcj).
      destruct (Nat.lt_trichotomy j k) as [Hlt|[->|Hlt]].
      * by apply Hsentj, Hpcs.
      * fold pcs in Hp. rewrite (Hpcs cj Hcount Hcj) in Hp. injection Hp as <- <-.
        rewrite He. split; [|done]. rewrite Htr.
        simpl. rewrite lookup_app_r by lia. rewrite Hlsent.
        match goal with |- _ !! ?n = _ => replace n with 0%nat by lia end. done.
      * rewrite (Hok k Hlt) in He. done.
    + specialize (Hcount Hcnt).
      destruct (lookup_lt_is_Some_2 cs j Hcount) as [cj Hcj].
      rewrite <- (Hwin j cj Hcj). by apply Hsentj, Hpcs.
Qed.

(** A download of TG_SIZE_LIMIT + 1 bytes whose second part is refused: the
    first part is sent, then removed, then the second part is tried. *)
Lemma part_removed_after_upload_witness :
  ∃ st',
    handle_download no_fault second_upload_fails (fetch_gives "/tmp/v.mp4")
      "https://youtu.be/abc" (start {[ "/tmp/v.mp4" := big_file ]}) = (Ret tt, st') ∧
    trace st' !! (2 + 2 * 0)%nat
      = Some (SendDocument (part_path "/tmp/v.mp4" 1) (Str.basename (part_path "/tmp/v.mp4" 1))
                (take (Z.to_nat CHUNK_SIZE) (drop (0 * Z.to_nat CHUNK_SIZE) big_file)) None) ∧
    trace st' !! (3 + 2 * 0)%nat = Some (Remove (part_path "/tmp/v.mp4" 1)) ∧
    disk st' !! part_path "/tmp/v.mp4" 1 = None ∧
    trace st' !! (2 + 2 * 1)%nat
      = Some (SendDocument (part_path "/tmp/v.mp4" 2) (Str.basename (part_path "/tmp/v.mp4" 2))
                (take (Z.to_nat CHUNK_SIZE) (drop (1 * Z.to_nat CHUNK_SIZE) big_file))
                (Some "Timed out")).
Proof.
  destruct (part_removed_after_upload no_fault second_upload_fails (fetch_gives "/tmp/v.mp4")
              "https://youtu.be/abc" {[ "/tmp/v.mp4" := big_file ]}
              {[ "/tmp/v.mp4" := big_file ]} "/tmp/v.mp4" big_file)
    as (st' & Hrun & _ & _ & Hsent).
  - reflexivity.
  - apply lookup_singleton_eq.
  - rewrite big_file_length. lia.
  - assert (ceil_div (TG_SIZE_LIMIT + 1) CHUNK_SIZE = 2) as Hparts by reflexivity.
    exists st'. split; [exact Hrun|].
    destruct (Hsent 0%nat) as [H0 Hrm].
    { intros p. reflexivity. }
    { rewrite big_file_length, Hparts. lia. }
    { intros i Hi. lia. }
    destruct (Hrm eq_refl) as [Hrm1 Hrm2].
    destruct (Hsent 1%nat) as [H1 _].
    { intros p. reflexivity. }
    { rewrite big_file_length, Hparts. lia. }
    { intros i Hi. assert (i = 0%nat) as -> by lia. reflexivity. }
    split; [exact H0|]. split; [exact Hrm1|]. split; [exact Hrm2|]. exact H1.
Defined.

(** Where the cleanup does happen: the direct path, whatever the upload
    does, and the split path when nothing fails. *)
Lemma direct_path_cleans_up (write_fault : string → option string)
    (upload_fault : nat → option string)
    (ytdlp : string → gmap string bytes → fetched * gmap string bytes)
    (url : string) (d d1 : gmap string bytes) (filepath : string) (data : bytes) :
  ytdlp url d = (Downloaded filepath, d1) →
  d1 !! filepath = Some data →
  Z.of_nat (length data) ≤ TG_SIZE_LIMIT →
  ∃ st',
    handle_download write_fault upload_fault ytdlp url (start d) = (Ret tt, st') ∧
    disk st' = delete filepath d1.
Proof.
  intros Hy Hd Hle. rewrite handle_download_eq, Hy, Hd.
  destruct (Z.leb_spec (Z.of_nat (length data)) TG_SIZE_LIMIT) as [_|?]; [|lia].
  rewrite (direct_send_run upload_fault filepath _ _ data) by done. by eexists.
Qed.

Lemma split_success_cleans_up (write_fault : string → option string)
    (upload_fault : nat → option string)
    (ytdlp : string → gmap string bytes → fetched * gmap string bytes)
    (url : string) (d d1 : gmap string bytes) (filepath : string) (data : bytes) :
  ytdlp url d = (Downloaded filepath, d1) →
  d1 !! filepath = Some data →
  TG_SIZE_LIMIT < Z.of_nat (length data) →
  (∀ p, write_fault p = None) →
  (∀ k, upload_fault k = None) →
  ∃ st' n,
    handle_download write_fault upload_fault ytdlp url (start d) = (Ret tt, st') ∧
    last (messages (trace st')) = Some MsgDoneParts ∧
    disk st' !! filepath = None ∧
    (∀ i, (i < n)%nat → disk st' !! part_path filepath (S i) = None) ∧
    (∀ q, q ≠ filepath → (∀ i, q ≠ part_path filepath i) → disk st' !! q = d1 !! q) ∧
    Z.of_nat n = ceil_div (Z.of_nat (length data)) CHUNK_SIZE.
Proof.
  intros Hy Hd Hgt Hwf Huf. rewrite handle_download_eq, Hy, Hd.
  destruct (Z.leb_spec (Z.of_nat (length data)) TG_SIZE_LIMIT) as [?|_]; [lia|].
  destruct (split_and_send_run write_fault upload_fault filepath
              (Z.of_nat (length data)) (State d1 [ReplyText (MsgQueued url)] 0) data Hd)
    as (st' & cs & k & closing & Hrun & Hk & Htr & _ & Hres).
  destruct Hres as [(e & He & _)|[(e & p & c & _ & _ & _ & He & _)|(_ & Hcnt & -> & -> & Hdisk)]];
    [by rewrite Hwf in He|by rewrite Huf in He|].
  exists st', (length cs). split; [done|]. simpl in Hdisk. split; [|split; [|split; [|split]]].
  - rewrite Htr. simpl. rewrite !messages_app, messages_uploaded. reflexivity.
  - rewrite Hdisk. apply lookup_delete_eq.
  - intros i Hi. rewrite Hdisk, lookup_delete_ne by (symmetry; apply part_path_neq_source).
    rewrite without_lookup, decide_True; [done|]. apply elem_of_parts. by exists i.
  - intros q Hq Hparts. rewrite Hdisk, lookup_delete_ne by done.
    rewrite without_lookup, decide_False.
    + apply with_parts_lookup_other. intros j _. apply Hparts.
    + intros (j & _ & ->)%elem_of_parts. by apply (Hparts (1 + j)%nat).
  - rewrite ceil_div_eq; [done|reflexivity].
Qed.

(** What the split path leaves behind when the first upload fails, for
    any download of TG_SIZE_LIMIT + 1 bytes. *)
Lemma first_upload_failure_run (upload_fault : nat → option string)
    (url filepath e : string) (data : bytes) :
  Z.of_nat (length data) = TG_SIZE_LIMIT + 1 →
  upload_fault 0%nat = Some e →
  ∃ st',
    handle_download no_fault upload_fault (fetch_gives filepath) url
      (start {[ filepath := data ]}) = (Ret tt, st') ∧
    last (messages (trace st')) = Some (MsgSplitFailed e) ∧
    disk st' !! filepath = Some data ∧
    is_Some (disk st' !! part_path filepath 1) ∧
    is_Some (disk st' !! part_path filepath 2).
Proof.
  intros Hlen Hfail.
  rewrite handle_download_eq. unfold fetch_gives. rewrite lookup_singleton_eq.
  destruct (Z.leb_spec (Z.of_nat (length data)) TG_SIZE_LIMIT) as [Hle|_]; [lia|].
  destruct (split_and_send_run no_fault upload_fault filepath (Z.of_nat (length data))
              (State {[ filepath := data ]} [ReplyText (MsgQueued url)] 0)
              data (lookup_singleton_eq _ _))
    as (st' & cs & k & closing & Hrun & Hk & Htr & Hnf & Hres).
  exists st'. split; [done|].
  assert (Z.of_nat (length cs) = (Z.of_nat (length data) + CHUNK_SIZE - 1) / CHUNK_SIZE →
          length cs = 2%nat) as Htwo.
  { rewrite Hlen. intros H. apply Nat2Z.inj. rewrite H. reflexivity. }
  simpl in Hnf.
  destruct Hres as [(e' & He & _)|[(e' & p & c & _ & Hcnt & _ & He & -> & Hdisk)|(_ & Hcnt & -> & _)]].
  - discriminate.
  - assert (k = 0%nat) as ->.
    { destruct k as [|k]; [done|]. rewrite (Hnf 0%nat) in Hfail by lia. discriminate. }
    simpl in He. rewrite Hfail in He. injection He as <-.
    split.
    { rewrite Htr. reflexivity. }
    rewrite Hdisk. simpl.
    split; [by rewrite with_parts_lookup_source, lookup_singleton_eq|].
    specialize (Htwo Hcnt). destruct cs as [|c1 [|c2 [|]]]; try done.
    split; eexists.
    + by apply (with_parts_lookup_part filepath [c1; c2] 1 _ 0).
    + by apply (with_parts_lookup_part filepath [c1; c2] 1 _ 1).
  - specialize (Htwo Hcnt). rewrite Htwo in Hnf.
    rewrite (Hnf 0%nat) in Hfail by lia. discriminate.
Qed.

(** C2 (cleanup) fails on the code. A download of TG_SIZE_LIMIT + 1 bytes
    is split in two parts; when the upload of the first part fails the
    request ends with the failure message, and the download and both parts
    are still on the disk: the handler of line 181 removes nothing. *)
Theorem failed_upload_leaves_files :
  ∃ st',
    handle_download no_fault first_upload_fails (fetch_gives "/tmp/v.mp4") "https://youtu.be/abc"
      (start {[ "/tmp/v.mp4" := big_file ]}) = (Ret tt, st') ∧
    last (messages (trace st')) = Some (MsgSplitFailed "Timed out") ∧
    disk st' !! "/tmp/v.mp4" = Some big_file ∧
    is_Some (disk st' !! "/tmp/v.mp4.part001") ∧
    is_Some (disk st' !! "/tmp/v.mp4.part002").
Proof.
  change "/tmp/v.mp4.part001" with (part_path "/tmp/v.mp4" 1).
  change "/tmp/v.mp4.part002" with (part_path "/tmp/v.mp4" 2).
  exact (first_upload_failure_run first_upload_fails "https://youtu.be/abc" "/tmp/v.mp4"
           "Timed out" big_file big_file_length eq_refl).
Qed.

(** ** More on the segmenter *)

(** X1 (windows). For a positive chunk size, the k-th part returned by
    [split_file] (counting from 0) holds the bytes k*C .. (k+1)*C - 1 of the
    source, cut at the end of the file; so every part but the last has
    exactly C bytes. *)
Theorem split_file_windows (write_fault : string → option string) (path : string)
    (chunk_size : Z) (st st' : state) (parts : list string) (data : bytes) :
  disk st !! path = Some data →
  0 < chunk_size →
  split_file write_fault path chunk_size st = (Ret parts, st') →
  ∀ k p, parts !! k = Some p →
    disk st' !! p = Some (take (Z.to_nat chunk_size) (drop (k * Z.to_nat chunk_size) data)) ∧
    ((S k < length parts)%nat →
     length (take (Z.to_nat chunk_size) (drop (k * Z.to_nat chunk_size) data))
     = Z.to_nat chunk_size).
Proof.
  intros Hd Hpos Hrun.
  destruct (split_file_run_full write_fault path chunk_size st data Hd)
    as (r & st1 & cs & Hrun' & Hdisk & _ & _ & _ & _ & Hres & Hwin).
  rewrite Hrun in Hrun'. injection Hrun' as <- <-.
  destruct Hres as [(Hparts & _ & Hcnt)|(e & ? & _)]; [|done]. injection Hparts as ->.
  specialize (Hcnt Hpos). specialize (Hwin Hpos).
  intros k p Hk. assert (k < length cs)%nat as Hlt.
  { apply lookup_lt_Some in Hk. by rewrite length_map, length_seq in Hk. }
  rewrite parts_lookup in Hk by done. injection Hk as <-.
  destruct (lookup_lt_is_Some_2 cs k Hlt) as [c Hc]. split.
  - rewrite Hdisk, (with_parts_lookup_part path cs 1 _ k c Hc). f_equal. by apply Hwin.
  - rewrite length_map, length_seq. intros Hnext.
    rewrite length_take, length_drop.
    pose proof (Z.mul_div_le (Z.of_nat (length data) + chunk_size - 1) chunk_size Hpos) as Hq.
    rewrite <- Hcnt in Hq. nia.
Qed.

Lemma split_file_windows_witness :
  disk demo_split4 !! "/tmp/a.mp4.part002"
    = Some (take (Z.to_nat 4) (drop (1 * Z.to_nat 4) (bytes_of "0123456789"))) ∧
  ((2 < length ["/tmp/a.mp4.part001"; "/tmp/a.mp4.part002"; "/tmp/a.mp4.part003"])%nat →
   length (take (Z.to_nat 4) (drop (1 * Z.to_nat 4) (bytes_of "0123456789"))) = Z.to_nat 4).
Proof.
  apply (split_file_windows no_fault "/tmp/a.mp4" 4 (start demo_disk) demo_split4
           ["/tmp/a.mp4.part001"; "/tmp/a.mp4.part002"; "/tmp/a.mp4.part003"]
           (bytes_of "0123456789")).
  - reflexivity.
  - lia.
  - vm_compute. reflexivity.
  - reflexivity.
Defined.



(** X3 (a part cannot be written). When [split_file] raises for a positive
    chunk size, the error is that of the first part that could not be
    written; the parts before it stay on the disk with their windows of the
    source (the segmenter removes nothing), the source is intact, and no
    file other than the parts up to the one that failed is touched.
    Nothing is said of the path of the part that failed: [write_fault] is
    the error of opening it, and a failure that comes after the opening
    leaves an empty or partial file there. *)
Theorem split_file_write_fault (write_fault : string → option string) (path : string)
    (chunk_size : Z) (st st' : state) (data : bytes) (e : string) :
  disk st !! path = Some data →
  0 < chunk_size →
  split_file write_fault path chunk_size st = (Raise e, st') →
  ∃ m,
    write_fault (part_path path (S m)) = Some e ∧
    (∀ k, (k < m)%nat →
       write_fault (part_path path (S k)) = None ∧
       disk st' !! part_path path (S k)
         = Some (take (Z.to_nat chunk_size) (drop (k * Z.to_nat chunk_size) data))) ∧
    disk st' !! path = Some data ∧
    (∀ q, (∀ k, (k ≤ m)%nat → q ≠ part_path path (S k)) → disk st' !! q = disk st !! q).
Proof.
  intros Hd Hpos Hrun.
  destruct (split_file_run_full write_fault path chunk_size st data Hd)
    as (r & st1 & cs & Hrun' & Hdisk & _ & _ & _ & Hnf & Hres & Hwin).
  rewrite Hrun in Hrun'. injection Hrun' as <- <-.
  destruct Hres as [(? & _)|(e' & [= <-] & [He|[? _]])]; [done| |lia].
  exists (length cs). split; [done|]. split; [|split].
  - intros k Hk. split; [by apply Hnf|].
    destruct (lookup_lt_is_Some_2 cs k Hk) as [c Hc].
    rewrite Hdisk, (with_parts_lookup_part path cs 1 _ k c Hc). f_equal. by apply Hwin.
  - by rewrite Hdisk, with_parts_lookup_source.
  - intros q Hq. rewrite Hdisk. apply with_parts_lookup_other.
    intros k Hk. apply Hq. lia.
Qed.

Lemma split_file_write_fault_witness :
  ∃ m,
    part2_not_writable (part_path "/tmp/a.mp4" (S m))
      = Some "[Errno 13] Permission denied: '/tmp/a.mp4.part002'" ∧
    (∀ k, (k < m)%nat →
       part2_not_writable (part_path "/tmp/a.mp4" (S k)) = None ∧
       disk demo_partial !! part_path "/tmp/a.mp4" (S k)
         = Some (take (Z.to_nat 4) (drop (k * Z.to_nat 4) (bytes_of "0123456789")))) ∧
    disk demo_partial !! "/tmp/a.mp4" = Some (bytes_of "0123456789") ∧
    (∀ q, (∀ k, (k ≤ m)%nat → q ≠ part_path "/tmp/a.mp4" (S k)) →
          disk demo_partial !! q = disk (start demo_disk) !! q).
Proof.
  apply (split_file_write_fault part2_not_writable "/tmp/a.mp4" 4 (start demo_disk) demo_partial).
  - reflexivity.
  - lia.
  - vm_compute. reflexivity.
Defined.

(** X4 (running the segmenter again). When the parts can be written and
    [split_file] has returned for a positive chunk size, a second run on the
    result returns the same parts and changes nothing. *)
Theorem split_file_again (write_fault : string → option string) (path : string)
    (chunk_size : Z) (st st' : state) (parts : list string) :
  0 < chunk_size →
  (∀ i, write_fault (part_path path i) = None) →
  split_file write_fault path chunk_size st = (Ret parts, st') →
  split_file write_fault path chunk_size st' = (Ret parts, st').
Proof.
  intros Hpos Hwf Hrun. destruct (disk st !! path) as [data|] eqn:Hd;
    [|by rewrite split_file_missing in Hrun].
  destruct (split_file_run_full write_fault path chunk_size st data Hd)
    as (r & st1 & cs & Hrun' & Hdisk & Htr & Hse & _ & _ & Hres & Hwin).
  rewrite Hrun in Hrun'. injection Hrun' as <- <-.
  destruct Hres as [(Hparts & _ & Hcnt)|(e & ? & _)]; [|done]. injection Hparts as ->.
  assert (disk st' !! path = Some data) as Hd'
    by (by rewrite Hdisk, with_parts_lookup_source).
  destruct (split_file_run_full write_fault path chunk_size st' data Hd')
    as (r2 & st2 & cs2 & Hrun2 & Hdisk2 & Htr2 & Hse2 & _ & _ & Hres2 & Hwin2).
  destruct Hres2 as [(-> & _ & Hcnt2)|(e & _ & [He|[? _]])];
    [|by rewrite Hwf in He|lia].
  assert (cs2 = cs) as ->.
  { apply list_eq_same_length with (length cs); [done| |].
    - apply Nat2Z.inj. by rewrite Hcnt, Hcnt2.
    - intros k c2 c Hk Hc2 Hc. by rewrite (Hwin Hpos k c Hc), (Hwin2 Hpos k c2 Hc2). }
  rewrite Hrun2. f_equal.
  assert (disk st2 = disk st') as Heq.
  { rewrite Hdisk2. apply map_eq. intros q.
    destruct (decide (q ∈ map (part_path path) (seq 1 (length cs)))) as [Hq|Hq].
    - apply elem_of_parts in Hq as (k & Hk & ->).
      destruct (lookup_lt_is_Some_2 cs k Hk) as [c Hc].
      by rewrite Hdisk, !(with_parts_lookup_part path cs 1 _ k c Hc).
    - apply with_parts_lookup_other. intros k Hk ->. apply Hq, elem_of_parts. by exists k. }
  destruct st2, st'. simpl in *. by rewrite Heq, Htr2, Hse2.
Qed.

Lemma split_file_again_witness :
  split_file no_fault "/tmp/a.mp4" 4 demo_split4
  = (Ret ["/tmp/a.mp4.part001"; "/tmp/a.mp4.part002"; "/tmp/a.mp4.part003"], demo_split4).
Proof.
  apply (split_file_again no_fault "/tmp/a.mp4" 4 (start demo_disk) demo_split4).
  - lia.
  - reflexivity.
  - vm_compute. reflexivity.
Defined.

(** ** More on the orchestrator *)

Lemma after_last_slash_app (s t : string) :
  Str.after_last_slash t = None →
  Str.after_last_slash (s +:+ t) = (λ x, x +:+ t) <$> Str.after_last_slash s.
Proof.
  intros Ht. induction s as [|c s IH]; [done|].
  rewrite StrFacts.app_cons. simpl. rewrite IH.
  destruct (Str.after_last_slash s); simpl; [done|]. by destruct (Ascii.eqb c "/").
Qed.

Lemma basename_app (s t : string) :
  Str.after_last_slash t = None → Str.basename (s +:+ t) = Str.basename s +:+ t.
Proof.
  intros Ht. unfold Str.basename. rewrite after_last_slash_app by done.
  by destruct (Str.after_last_slash s).
Qed.

Lemma digits_no_slash (s : string) :
  is_Some (NilEmpty.uint_of_string s) → Str.after_last_slash s = None.
Proof.
  induction s as [|c s IH]; [done|]. simpl. intros [d Hd].
  destruct (NilEmpty.uint_of_string s) as [d'|] eqn:E; [|done].
  rewrite IH by done.
  apply uint_of_char_spec in Hd.
  destruct Hd as [[-> _]|[[-> _]|[[-> _]|[[-> _]|[[-> _]|[[-> _]|[[-> _]|[[-> _]|[[-> _]|[-> _]]]]]]]]]];
    reflexivity.
Qed.

Lemma basename_part_path (path : string) (idx : nat) :
  Str.basename (part_path path idx) = Str.basename path +:+ ".part" +:+ Str.fmt03d idx.
Proof.
  unfold part_path. apply basename_app.
  change (".part" +:+ Str.fmt03d idx)
    with (String "." (String "p" (String "a" (String "r" (String "t" (Str.fmt03d idx)))))).
  simpl. rewrite digits_no_slash; [done|].
  pose proof (StrFacts.parse_fmt03d idx) as H. unfold parse_nat in H.
  by destruct (NilEmpty.uint_of_string (Str.fmt03d idx)).
Qed.

Lemma elem_of_uploaded (pcs : list (string * bytes)) (ev : event) :
  ev ∈ uploaded pcs →
  ∃ p c, (p, c) ∈ pcs ∧ (ev = SendDocument p (Str.basename p) c None ∨ ev = Remove p).
Proof.
  induction pcs as [|[p c] pcs IH]; simpl; [by intros ?%elem_of_nil|].
  rewrite !elem_of_cons. intros [->|[->|H]].
  - exists p, c. split; [apply list_elem_of_here|by left].
  - exists p, c. split; [apply list_elem_of_here|by right].
  - destruct (IH H) as (p' & c' & Hin & Hev). exists p', c'.
    split; [by apply list_elem_of_further|done].
Qed.

(** What is sent in the split path: parts of the download, each under the
    name of the download followed by the suffix of the part, and with at
    most CHUNK_SIZE bytes. *)
Lemma split_and_send_attachments (write_fault : string → option string)
    (upload_fault : nat → option string) (filepath : string) (size : Z)
    (st : state) (data : bytes) (st' : state) :
  disk st !! filepath = Some data →
  split_and_send write_fault upload_fault filepath size st = (Ret tt, st') →
  ∃ sent,
    trace st' = trace st ++ sent ∧
    ∀ p fn c err, SendDocument p fn c err ∈ sent →
      ∃ k, p = part_path filepath (S k) ∧
           fn = Str.basename filepath +:+ ".part" +:+ Str.fmt03d (S k) ∧
           0 < Z.of_nat (length c) ≤ CHUNK_SIZE.
Proof.
  intros Hd Hrun.
  destruct (split_and_send_run_full write_fault upload_fault filepath size st data Hd)
    as (st1 & cs & k & closing & Hrun' & Hk & Htr & _ & Hres & Hall & _).
  rewrite Hrun in Hrun'. injection Hrun' as <-.
  eexists. split; [exact Htr|].
  assert (∀ p c, (p, c) ∈ zip (map (part_path filepath) (seq 1 (length cs))) cs →
            ∃ j, p = part_path filepath (S j) ∧
                 Str.basename p = Str.basename filepath +:+ ".part" +:+ Str.fmt03d (S j) ∧
                 0 < Z.of_nat (length c) ≤ CHUNK_SIZE) as Hpart.
  { intros p c (j & Hj)%list_elem_of_lookup.
    apply part_files_lookup in Hj as [-> Hc]. exists j.
    split; [done|]. split; [apply basename_part_path|].
    rewrite Forall_lookup in Hall. destruct (Hall j c Hc) as [Hne Hle].
    split; [|done]. destruct c; [done|simpl; lia]. }
  intros p fn c err. rewrite !elem_of_app, elem_of_cons, elem_of_nil.
  intros [[?|[]]|[Hin|Hin]]; [done| |].
  - apply elem_of_uploaded in Hin as (p' & c' & Hpc & [[= -> -> -> ->]|?]); [|done].
    apply Hpart. apply elem_of_take in Hpc as (i & Hi & _). by eapply list_elem_of_lookup_2.
  - destruct Hres as [(e & _ & _ & -> & _)|[(e & q & c' & _ & _ & Hq & _ & -> & _)|(_ & _ & _ & -> & _)]];
      rewrite ?elem_of_cons, ?elem_of_nil in Hin.
    + by destruct Hin as [?|[]].
    + destruct Hin as [[= -> -> -> ->]|[?|[]]]; [|done].
      apply Hpart. by eapply list_elem_of_lookup_2.
    + by destruct Hin as [?|[?|[]]].
Qed.

(** X5 (attachment names and sizes). Once the download is
    on the disk, every file given to the transport is either the download
    itself, of at most TG_SIZE_LIMIT bytes and under its base name, or one
    of its parts, nonempty, of at most CHUNK_SIZE bytes and under the base
    name of the download followed by ".part" and the number of the part. *)
Theorem attachments_named_and_bounded (write_fault : string → option string)
    (upload_fault : nat → option string)
    (ytdlp : string → gmap string bytes → fetched * gmap string bytes)
    (url : string) (d d1 : gmap string bytes) (filepath : string) :
  ytdlp url d = (Downloaded filepath, d1) →
  ∃ st',
    handle_download write_fault upload_fault ytdlp url (start d) = (Ret tt, st') ∧
    ∀ p fn c err, SendDocument p fn c err ∈ trace st' →
      (p = filepath ∧ fn = Str.basename filepath ∧ d1 !! filepath = Some c ∧
       Z.of_nat (length c) ≤ TG_SIZE_LIMIT)
      ∨ (∃ k, p = part_path filepath (S k) ∧
              fn = Str.basename filepath +:+ ".part" +:+ Str.fmt03d (S k) ∧
              0 < Z.of_nat (length c) ≤ CHUNK_SIZE).
Proof.
  intros Hy. rewrite handle_download_eq, Hy.
  destruct (d1 !! filepath) as [data|] eqn:Hd.
  2:{ eexists. split; [done|]. intros p fn c err. simpl.
      rewrite !elem_of_cons, elem_of_nil. by intros [?|[?|[]]]. }
  destruct (Z.leb_spec (Z.of_nat (length data)) TG_SIZE_LIMIT) as [Hle|Hgt].
  - rewrite (direct_send_run upload_fault filepath _ _ data) by done.
    eexists. split; [done|]. intros p fn c err. simpl.
    destruct (upload_fault 0%nat); simpl; rewrite !elem_of_cons, elem_of_nil;
      (intros [?|[?|[[= -> -> -> _]|[?|[?|[]]]]]]; try done); by left.
  - destruct (split_and_send_run write_fault upload_fault filepath
                (Z.of_nat (length data)) (State d1 [ReplyText (MsgQueued url)] 0) data Hd)
      as (st' & _ & _ & _ & Hrun & _).
    destruct (split_and_send_attachments write_fault upload_fault filepath
                (Z.of_nat (length data)) (State d1 [ReplyText (MsgQueued url)] 0) data st' Hd Hrun)
      as (sent & Htr & Hsent).
    rewrite Hrun. exists st'. split; [done|]. intros p fn c err. rewrite Htr. simpl.
    rewrite elem_of_cons. intros [?|Hin]; [done|]. right. by eapply Hsent.
Qed.

Lemma attachments_named_and_bounded_witness :
  ∃ st',
    handle_download no_fault first_upload_fails (fetch_gives "/tmp/v.mp4") "https://youtu.be/abc"
      (start {[ "/tmp/v.mp4" := big_file ]}) = (Ret tt, st') ∧
    ∀ p fn c err, SendDocument p fn c err ∈ trace st' →
      (p = "/tmp/v.mp4" ∧ fn = Str.basename "/tmp/v.mp4" ∧
       ({[ "/tmp/v.mp4" := big_file ]} : gmap string bytes) !! "/tmp/v.mp4" = Some c ∧
       Z.of_nat (length c) ≤ TG_SIZE_LIMIT)
      ∨ (∃ k, p = part_path "/tmp/v.mp4" (S k) ∧
              fn = Str.basename "/tmp/v.mp4" +:+ ".part" +:+ Str.fmt03d (S k) ∧
              0 < Z.of_nat (length c) ≤ CHUNK_SIZE).
Proof.
  apply (attachments_named_and_bounded no_fault first_upload_fails (fetch_gives "/tmp/v.mp4")
           "https://youtu.be/abc" {[ "/tmp/v.mp4" := big_file ]} {[ "/tmp/v.mp4" := big_file ]}
           "/tmp/v.mp4").
  reflexivity.
Defined.

Lemma delivered_app (l1 l2 : list event) : delivered (l1 ++ l2) = delivered l1 ++ delivered l2.
Proof.
  induction l1 as [|[m|m|p fn c [e|]|p] l1 IH]; simpl; by rewrite ?IH.
Qed.

Lemma delivered_uploaded (pcs : list (string * bytes)) : delivered (uploaded pcs) = pcs.*2.
Proof. induction pcs as [|[p c] pcs IH]; [done|]. simpl. f_equal. exact IH. Qed.

Lemma part_files_snd (path : string) (cs : list bytes) :
  (zip (map (part_path path) (seq 1 (length cs))) cs).*2 = cs.
Proof. apply snd_zip. by rewrite length_map, length_seq. Qed.

(** X6 (what reaches the chat). Once the download is on the disk, the
    attachments that the transport accepted, concatenated in the order in
    which they were sent, are a prefix of the download: nothing is sent
    twice, out of order or altered.  They are the whole download when the
    request ends with one of the two success messages, which it does when
    nothing fails. *)
Theorem delivered_is_prefix (write_fault : string → option string)
    (upload_fault : nat → option string)
    (ytdlp : string → gmap string bytes → fetched * gmap string bytes)
    (url : string) (d d1 : gmap string bytes) (filepath : string) (data : bytes) :
  ytdlp url d = (Downloaded filepath, d1) →
  d1 !! filepath = Some data →
  ∃ st' rest,
    handle_download write_fault upload_fault ytdlp url (start d) = (Ret tt, st') ∧
    data = concat (delivered (trace st')) ++ rest ∧
    (kind_of_success (last (messages (trace st'))) = true → rest = []) ∧
    ((∀ p, write_fault p = None) → (∀ k, upload_fault k = None) →
     kind_of_success (last (messages (trace st'))) = true).
Proof.
  intros Hy Hd. rewrite handle_download_eq, Hy, Hd.
  destruct (Z.leb_spec (Z.of_nat (length data)) TG_SIZE_LIMIT) as [Hle|Hgt].
  - rewrite (direct_send_run upload_fault filepath _ _ data) by done. simpl.
    destruct (upload_fault 0%nat) as [e|] eqn:Hup.
    + eexists _, data. split; [done|]. simpl. split; [done|]. split; [done|].
      intros _ Huf. by rewrite Huf in Hup.
    + eexists _, []. split; [done|]. simpl. by rewrite !app_nil_r.
  - destruct (split_and_send_run write_fault upload_fault filepath
                (Z.of_nat (length data)) (State d1 [ReplyText (MsgQueued url)] 0) data Hd)
      as (st' & cs & k & closing & Hrun & Hk & Htr & _ & Hres).
    rewrite Hrun. simpl in Htr.
    assert (delivered (trace st') = take k cs ++ delivered closing) as Hdel.
    { rewrite Htr. simpl. rewrite delivered_app, delivered_uploaded.
      by rewrite fmap_take, part_files_snd. }
    assert (messages (trace st')
            = [MsgQueued url; MsgSplitting (Z.of_nat (length data) / 1024 / 1024)]
              ++ messages closing) as Hmsg.
    { rewrite Htr. simpl. by rewrite messages_app, messages_uploaded. }
    destruct Hres as [(e & He & -> & -> & _)|[(e & p & c & Hcat & _ & _ & He & -> & _)|(Hcat & _ & -> & -> & _)]].
    + exists st', data. split; [done|]. rewrite Hdel, Hmsg. simpl.
      split; [done|]. split; [done|]. intros Hwf _. by rewrite Hwf in He.
    + exists st', (concat (drop k cs)). split; [done|]. rewrite Hdel, Hmsg. simpl.
      rewrite app_nil_r. split; [by rewrite <- concat_app, take_drop|].
      split; [done|]. intros _ Huf. by rewrite Huf in He.
    + exists st', []. split; [done|]. rewrite Hdel, Hmsg. simpl.
      rewrite !app_nil_r, firstn_all. by rewrite Hcat.
Qed.

Lemma delivered_is_prefix_witness :
  ∃ st' rest,
    handle_download no_fault no_fault (fetch_gives "/tmp/v.mp4") "https://youtu.be/abc"
      (start {[ "/tmp/v.mp4" := big_file ]}) = (Ret tt, st') ∧
    big_file = concat (delivered (trace st')) ++ rest ∧
    (kind_of_success (last (messages (trace st'))) = true → rest = []) ∧
    ((∀ p : string, @no_fault string p = None) → (∀ k : nat, @no_fault nat k = None) →
     kind_of_success (last (messages (trace st'))) = true).
Proof.
  apply (delivered_is_prefix no_fault no_fault (fetch_gives "/tmp/v.mp4")
           "https://youtu.be/abc" {[ "/tmp/v.mp4" := big_file ]} {[ "/tmp/v.mp4" := big_file ]}
           "/tmp/v.mp4" big_file).
  - reflexivity.
  - apply lookup_singleton_eq.
Defined.

(** ** The URL pattern and the handlers *)

Module ReFacts.
Import Re.

#[local] Arguments space_at : simpl never.
#[local] Arguments match_here : simpl never.

Lemma skip_app (a b : string) : skip (String.length a) (a +:+ b) = b.
Proof. induction a as [|c a IH]; [by destruct b|]. by rewrite StrFacts.app_cons. Qed.

(** White space that starts [b] starts [b +:+ rest] too. *)
Lemma space_at_app (b rest : string) : space_at b = true → space_at (b +:+ rest) = true.
Proof.
  destruct b as [|c1 [|c2 [|c3 b]]]; rewrite ?StrFacts.app_cons, ?StrFacts.app_nil_l;
    unfold space_at.
  - done.
  - destruct (ascii_space (nat_of_ascii c1)); [done|]. done.
  - destruct (ascii_space (nat_of_ascii c1)); [done|].
    destruct rest; [done|]. by destruct (nat_of_ascii c1 =? 194)%nat.
  - done.
Qed.

(** A byte that is neither ASCII white space nor the first byte of the
    encoding of another white space starts no white space. *)
Lemma space_at_plain (c : ascii) (r : string) :
  ascii_space (nat_of_ascii c) = false →
  (nat_of_ascii c =? 194)%nat = false → (nat_of_ascii c =? 225)%nat = false →
  (nat_of_ascii c =? 226)%nat = false → (nat_of_ascii c =? 227)%nat = false →
  space_at (String c r) = false.
Proof.
  intros H0 H1 H2 H3 H4. unfold space_at. rewrite H0.
  destruct r as [|c2 [|c3 r]]; [done|by rewrite H1|]. by rewrite H1, H2, H3, H4.
Qed.

Lemma nonspace_run_spec (s : string) :
  ∃ rest, s = nonspace_run s +:+ rest ∧
          (rest = "" ∨ space_at rest = true) ∧
          free_of_space (nonspace_run s) = true.
Proof.
  induction s as [|c s (rest & Hs & Hrest & Hfree)].
  - exists "". split; [done|]. split; [by left|done].
  - simpl. destruct (space_at (String c s)) eqn:E.
    + exists (String c s). split; [done|]. split; [by right|done].
    + exists rest. rewrite StrFacts.app_cons, <- Hs. split; [done|]. split; [done|].
      simpl. rewrite Hfree, andb_true_r. apply negb_true_iff.
      destruct (space_at (String c (nonspace_run s))) eqn:E'; [|done].
      apply (space_at_app _ rest) in E'. rewrite StrFacts.app_cons, <- Hs in E'. congruence.
Qed.

Lemma nonspace_run_empty (s : string) :
  nonspace_run s = "" ↔ s = "" ∨ space_at s = true.
Proof.
  destruct s as [|c s]; simpl; [split; [by left|done]|].
  destruct (space_at (String c s)); split; try done.
  - by right.
  - by intros [|].
Qed.

Lemma after_scheme_Some (scheme s u : string) :
  after_scheme scheme s = Some u ↔
  ∃ rest, s = scheme +:+ rest ∧ rest ≠ "" ∧ space_at rest = false ∧
          u = scheme +:+ nonspace_run rest.
Proof.
  unfold after_scheme. split.
  - destruct (Str.startswith scheme s) eqn:E; [|done].
    apply StrFacts.startswith_spec in E as [rest ->]. rewrite skip_app.
    destruct (nonspace_run rest) as [|c r] eqn:Hr; [done|]. intros [= <-].
    exists rest. rewrite Hr. split; [done|].
    assert (¬ (rest = "" ∨ space_at rest = true)) as Hn
      by (rewrite <- nonspace_run_empty, Hr; done).
    split; [naive_solver|]. split; [|done]. destruct (space_at rest); naive_solver.
  - intros (rest & -> & Hne & Hsp & ->).
    assert (Str.startswith scheme (scheme +:+ rest) = true) as ->
      by (apply StrFacts.startswith_spec; eauto).
    rewrite skip_app. destruct (nonspace_run rest) eqn:Hr; [|done].
    apply nonspace_run_empty in Hr as [?|?]; [done|congruence].
Qed.

Lemma after_scheme_None (scheme s : string) :
  after_scheme scheme s = None ↔
  ¬ ∃ rest, s = scheme +:+ rest ∧ rest ≠ "" ∧ space_at rest = false.
Proof.
  split.
  - intros H (rest & Hs & Hne & Hsp).
    assert (after_scheme scheme s = Some (scheme +:+ nonspace_run rest)) as H'
      by (apply after_scheme_Some; eauto). congruence.
  - intros H. destruct (after_scheme scheme s) as [u|] eqn:E; [|done].
    apply after_scheme_Some in E as (rest & ? & ? & ? & _). destruct H. eauto.
Qed.

Lemma match_here_Some (s u : string) :
  match_here s = Some u →
  ∃ scheme rest, (scheme = "http://" ∨ scheme = "https://") ∧
                 s = scheme +:+ rest ∧ rest ≠ "" ∧ space_at rest = false ∧
                 u = scheme +:+ nonspace_run rest.
Proof.
  unfold match_here. destruct (after_scheme "https://" s) as [u'|] eqn:E.
  - intros [= <-]. apply after_scheme_Some in E as (rest & ? & ? & ? & ?).
    exists "https://", rest. eauto 10.
  - intros E'. apply after_scheme_Some in E' as (rest & ? & ? & ? & ?).
    exists "http://", rest. eauto 10.
Qed.

Lemma match_here_None (s : string) : match_here s = None ↔ ¬ url_starts s.
Proof.
  unfold match_here, url_starts. split.
  - destruct (after_scheme "https://" s) as [u'|] eqn:E; [done|]. intros E'.
    rewrite after_scheme_None in E, E'. intros (scheme & rest & [->| ->] & Hrest); eauto.
  - intros H. destruct (after_scheme "https://" s) as [u'|] eqn:E.
    + apply after_scheme_Some in E as (rest & ? & ? & ? & _). destruct H.
      exists "https://", rest. eauto.
    + apply after_scheme_None. intros (rest & ?). destruct H. exists "http://", rest. eauto.
Qed.

Lemma search_Some (s u : string) :
  search s = Some u →
  ∃ pre post, s = pre +:+ post ∧ match_here post = Some u ∧
              ∀ p1 p2, pre = p1 +:+ p2 → p2 ≠ "" → match_here (p2 +:+ post) = None.
Proof.
  induction s as [|c s IH]; simpl.
  - done.
  - destruct (match_here (String c s)) eqn:E.
    + intros [= ->]. exists "", (String c s). split; [done|]. split; [done|].
      intros [|??] [|??]; done.
    + intros H. destruct (IH H) as (pre & post & -> & Hm & Hleft).
      exists (String c pre), post. rewrite StrFacts.app_cons. split; [done|]. split; [done|].
      intros [|c' p1] p2 Hp Hne.
      * rewrite StrFacts.app_nil_l in Hp. subst p2. by rewrite StrFacts.app_cons.
      * rewrite StrFacts.app_cons in Hp. injection Hp as _ Hp. by apply (Hleft p1).
Qed.

Lemma search_None (s : string) :
  search s = None ↔ ∀ pre post, s = pre +:+ post → match_here post = None.
Proof.
  induction s as [|c s IH]; simpl.
  - split; [|done]. intros _ [|??] [|??]; done.
  - destruct (match_here (String c s)) eqn:E.
    + split; [done|]. intros H. by rewrite (H "" (String c s)) in E.
    + rewrite IH. split.
      * intros H [|c' pre] post Hs.
        -- rewrite StrFacts.app_nil_l in Hs. by subst post.
        -- rewrite StrFacts.app_cons in Hs. injection Hs as _ Hs. by apply (H pre).
      * intros H pre post ->. apply (H (String c pre)). by rewrite StrFacts.app_cons.
Qed.

Lemma free_of_space_scheme (scheme r : string) :
  scheme = "http://" ∨ scheme = "https://" →
  free_of_space r = true → free_of_space (scheme +:+ r) = true.
Proof.
  intros [->| ->] Hr;
    repeat (rewrite StrFacts.app_cons; cbn [free_of_space];
            rewrite space_at_plain by reflexivity; cbn [negb andb]);
    by rewrite StrFacts.app_nil_l.
Qed.

End ReFacts.

(** X7 (the URL that is downloaded). When [text_url_handler] starts a
    download, the URL is a piece of the text of the message that begins
    with "http://" or "https://" followed by at least one character, has no
    white space in it, runs up to the next white space or the end of the
    text, and is the leftmost such piece. *)
Theorem text_url_handler_url (write_fault : string → option string)
    (upload_fault : nat → option string)
    (ytdlp : string → gmap string bytes → fetched * gmap string bytes)
    (text : option string) (st : state) (url : string) (r : outcome unit * state) :
  text_url_handler write_fault upload_fault ytdlp text st = Ran url r →
  r = handle_download write_fault upload_fault ytdlp url st ∧
  ∃ pre post scheme rest,
    default "" text = pre +:+ url +:+ post ∧
    url = scheme +:+ rest ∧ (scheme = "http://" ∨ scheme = "https://") ∧ rest ≠ "" ∧
    Re.free_of_space url = true ∧
    (post = "" ∨ Re.space_at post = true) ∧
    (∀ p1 p2, pre = p1 +:+ p2 → p2 ≠ "" → ¬ Re.url_starts (p2 +:+ url +:+ post)).
Proof.
  unfold text_url_handler.
  destruct (Re.search (default "" text)) as [u|] eqn:Hs; [|done].
  intros [= <- <-]. split; [done|].
  apply ReFacts.search_Some in Hs as (pre & post0 & Htext & Hm & Hleft).
  apply ReFacts.match_here_Some in Hm as (scheme & rest0 & Hscheme & -> & Hne & Hsp & ->).
  destruct (ReFacts.nonspace_run_spec rest0) as (post & Hrest0 & Hpost & Hfree).
  assert (scheme +:+ rest0 = (scheme +:+ Re.nonspace_run rest0) +:+ post) as Heq
    by (by rewrite StrFacts.app_assoc, <- Hrest0).
  exists pre, post, scheme, (Re.nonspace_run rest0).
  split; [by rewrite <- Heq|]. split; [done|]. split; [done|]. split.
  { rewrite ReFacts.nonspace_run_empty. intros [?|?]; congruence. }
  split; [by apply ReFacts.free_of_space_scheme|]. split; [done|].
  intros p1 p2 Hp Hp2. rewrite <- Heq. apply ReFacts.match_here_None. by apply (Hleft p1).
Qed.

Lemma text_url_handler_url_witness :
  handle_download no_fault no_fault (fetch_fails "HTTP Error 404") "https://youtu.be/abc?t=1"
    (start ∅)
  = handle_download no_fault no_fault (fetch_fails "HTTP Error 404") "https://youtu.be/abc?t=1"
      (start ∅) ∧
  ∃ pre post scheme rest,
    default "" (Some "see https://youtu.be/abc?t=1 now") = pre +:+ "https://youtu.be/abc?t=1" +:+ post ∧
    "https://youtu.be/abc?t=1" = scheme +:+ rest ∧
    (scheme = "http://" ∨ scheme = "https://") ∧ rest ≠ "" ∧
    Re.free_of_space "https://youtu.be/abc?t=1" = true ∧
    (post = "" ∨ Re.space_at post = true) ∧
    (∀ p1 p2, pre = p1 +:+ p2 → p2 ≠ "" →
       ¬ Re.url_starts (p2 +:+ "https://youtu.be/abc?t=1" +:+ post)).
Proof.
  apply (text_url_handler_url no_fault no_fault (fetch_fails "HTTP Error 404")
           (Some "see https://youtu.be/abc?t=1 now") (start ∅)).
  reflexivity.
Defined.

(** X8 (messages without a URL). [text_url_handler] returns at once, without
    a message and without a download, exactly when nowhere in the text
    "http://" or "https://" is followed by a character that is no white
    space; a message without text counts as the empty text. *)
Theorem text_url_handler_ignores (write_fault : string → option string)
    (upload_fault : nat → option string)
    (ytdlp : string → gmap string bytes → fetched * gmap string bytes)
    (text : option string) (st : state) :
  text_url_handler write_fault upload_fault ytdlp text st = Ignored ↔
  ¬ ∃ pre post, default "" text = pre +:+ post ∧ Re.url_starts post.
Proof.
  unfold text_url_handler.
  destruct (Re.search (default "" text)) as [u|] eqn:Hs.
  - split; [done|]. intros H. destruct H.
    apply ReFacts.search_Some in Hs as (pre & post & Htext & Hm & _).
    exists pre, post. split; [done|].
    apply ReFacts.match_here_Some in Hm as (scheme & rest & ? & ? & ? & ? & _).
    by exists scheme, rest.
  - split; [|done]. intros _ (pre & post & Htext & Hu).
    rewrite ReFacts.search_None in Hs. specialize (Hs pre post Htext).
    by apply ReFacts.match_here_None in Hs.
Qed.

(** ** The downloader *)

Section FetcherFacts.

Variable cookies_file : string.
Variable extract_info :
  option string → string → string → gmap string bytes → extraction * gmap string bytes.
Variable listdir : string → gmap string bytes → list string.

(** The loop over the directory only reads: it returns a name or raises,
    and the state is the same after it. *)
Lemma find_by_id_state (outdir : string) (vid_id : option string) (names : list string)
    (filename : string) (st : state) :
  ∃ r, Fetcher.find_by_id outdir vid_id names filename st = (r, st) ∧ r ≠ OutOfFuel.
Proof.
  induction names as [|fname names IH]; simpl; [by eexists|].
  destruct vid_id as [id|]; [|by eexists].
  destruct (Str.startswith (id +:+ ".") fname); [|done].
  unfold mbind, io_mbind, io_bind, getsize.
  destruct (disk st !! Path.join outdir fname) as [c|]; [|by eexists].
  by destruct (0 <? Z.of_nat (length c)); [eexists|].
Qed.

(** The steps of [resolve]. *)
Lemma resolve_eq (outdir : string) (vid_id : option string) (filename : string) (st : state) :
  Fetcher.resolve listdir outdir vid_id filename st =
  if bool_decide (is_Some (disk st !! filename)) then (Ret filename, st)
  else if bool_decide (is_Some (disk st !! ((Path.splitext filename).1 +:+ ".mp4")))
       then (Ret ((Path.splitext filename).1 +:+ ".mp4"), st)
       else match Fetcher.find_by_id outdir vid_id (listdir outdir (disk st)) filename st with
            | (Ret found, st') =>
                if bool_decide (is_Some (disk st' !! found)) then (Ret found, st')
                else (Raise "Download completed but output file not found", st')
            | other => other
            end.
Proof.
  unfold Fetcher.resolve, Fetcher.path_exists, mbind, io_mbind, io_bind, mret, io_mret, io_ret.
  destruct (bool_decide (is_Some (disk st !! filename))) eqn:E1; simpl.
  { by rewrite !E1. }
  destruct (bool_decide (is_Some (disk st !! ((Path.splitext filename).1 +:+ ".mp4")))) eqn:E2;
    simpl.
  { by rewrite !E2. }
  rewrite E1.
  destruct (find_by_id_state outdir vid_id (listdir outdir (disk st)) filename st)
    as (r & -> & Hr).
  destruct r as [found| |]; try done.
  by destruct (bool_decide (is_Some (disk st !! found))).
Qed.

Lemma resolve_returns (outdir : string) (vid_id : option string) (filename : string)
    (st : state) :
  ∃ r, Fetcher.resolve listdir outdir vid_id filename st = (r, st) ∧ r ≠ OutOfFuel ∧
       ∀ p, r = Ret p → is_Some (disk st !! p).
Proof.
  rewrite resolve_eq.
  destruct (bool_decide (is_Some (disk st !! filename))) eqn:E1.
  { eexists. split; [done|]. split; [done|]. intros p [= <-]. by apply bool_decide_eq_true in E1. }
  destruct (bool_decide (is_Some (disk st !! ((Path.splitext filename).1 +:+ ".mp4")))) eqn:E2.
  { eexists. split; [done|]. split; [done|]. intros p [= <-]. by apply bool_decide_eq_true in E2. }
  destruct (find_by_id_state outdir vid_id (listdir outdir (disk st)) filename st)
    as (r & -> & Hr).
  destruct r as [found| |]; [|by eexists|done].
  destruct (bool_decide (is_Some (disk st !! found))) eqn:E3; [|by eexists].
  eexists. split; [done|]. split; [done|]. intros p [= <-]. by apply bool_decide_eq_true in E3.
Qed.

End FetcherFacts.

Section FetcherProperties.

Variable cookies_file : string.
Variable extract_info :
  option string → string → string → gmap string bytes → extraction * gmap string bytes.
Variable listdir : string → gmap string bytes → list string.

Lemma download_eq (url outdir : string) (st : state) :
  Fetcher.download_with_ytdlp cookies_file extract_info listdir url outdir st =
  match extract_info (Fetcher.cookiefile_of cookies_file (disk st)) outdir url (disk st) with
  | (Info id filename, d1) => Fetcher.resolve listdir outdir id filename (set_disk d1 st)
  | (DownloadError msg, d1) => (Raise ("yt-dlp DownloadError: " +:+ msg), set_disk d1 st)
  | (OtherError msg, d1) => (Raise msg, set_disk d1 st)
  end.
Proof.
  unfold Fetcher.download_with_ytdlp, Fetcher.extract, Fetcher.path_exists,
    Fetcher.cookiefile_of, mbind, io_mbind, io_bind.
  by destruct (extract_info _ outdir url (disk st)) as [[id filename|msg|msg] d1].
Qed.

(** X9 (the file is there). When [download_with_ytdlp] returns a path, a
    file is at that path in the scratch directory as yt-dlp left it; the
    function itself writes and removes nothing. *)
Theorem download_returns_existing_file (url outdir : string) (st st' : state) (p : string) :
  Fetcher.download_with_ytdlp cookies_file extract_info listdir url outdir st = (Ret p, st') →
  is_Some (disk st' !! p) ∧
  trace st' = trace st ∧ sends st' = sends st ∧
  ∃ id filename,
    extract_info (Fetcher.cookiefile_of cookies_file (disk st)) outdir url (disk st)
    = (Info id filename, disk st').
Proof.
  rewrite download_eq.
  destruct (extract_info _ outdir url (disk st)) as [[id filename|msg|msg] d1]; [|done..].
  destruct (resolve_returns listdir outdir id filename (set_disk d1 st)) as (r & -> & _ & Hr).
  intros [= -> <-]. split; [by apply Hr|]. split; [done|]. split; [done|]. by exists id, filename.
Qed.

(** X11 (which file is returned). The name that yt-dlp prepared is returned
    when a file is there; otherwise the same name with the extension
    replaced by ".mp4" is returned when that file is there. *)
Theorem download_prefers_prepared_name (url outdir : string) (st : state)
    (id : option string) (filename : string) (d1 : gmap string bytes) :
  extract_info (Fetcher.cookiefile_of cookies_file (disk st)) outdir url (disk st)
  = (Info id filename, d1) →
  (is_Some (d1 !! filename) →
   Fetcher.download_with_ytdlp cookies_file extract_info listdir url outdir st
   = (Ret filename, set_disk d1 st)) ∧
  (d1 !! filename = None →
   is_Some (d1 !! ((Path.splitext filename).1 +:+ ".mp4")) →
   Fetcher.download_with_ytdlp cookies_file extract_info listdir url outdir st
   = (Ret ((Path.splitext filename).1 +:+ ".mp4"), set_disk d1 st)).
Proof.
  intros He. rewrite download_eq, He, resolve_eq. simpl. split.
  - intros H. by rewrite bool_decide_eq_true_2.
  - intros H1 H2. rewrite bool_decide_eq_false_2 by (rewrite H1; by intros [??]).
    by rewrite bool_decide_eq_true_2.
Qed.

Lemma find_by_id_found (outdir id : string) (skipped later : list string) (fname : string)
    (filename : string) (st : state) (c : bytes) :
  (∀ m, m ∈ skipped →
     Str.startswith (id +:+ ".") m = false ∨ disk st !! Path.join outdir m = Some []) →
  Str.startswith (id +:+ ".") fname = true →
  disk st !! Path.join outdir fname = Some c → c ≠ [] →
  Fetcher.find_by_id outdir (Some id) (skipped ++ fname :: later) filename st
  = (Ret (Path.join outdir fname), st).
Proof.
  intros Hskip Hstart Hc Hne. induction skipped as [|m skipped IH]; simpl.
  - rewrite Hstart. unfold mbind, io_mbind, io_bind, getsize. rewrite Hc.
    destruct c; [done|]. reflexivity.
  - destruct (Hskip m (list_elem_of_here _ _)) as [->|Hm].
    + apply IH. intros m' Hm'. by apply Hskip, list_elem_of_further.
    + destruct (Str.startswith (id +:+ ".") m).
      * unfold mbind, io_mbind, io_bind, getsize. rewrite Hm. simpl.
        apply IH. intros m' Hm'. by apply Hskip, list_elem_of_further.
      * apply IH. intros m' Hm'. by apply Hskip, list_elem_of_further.
Qed.

Lemma find_by_id_none (outdir id : string) (names : list string) (filename : string)
    (st : state) :
  (∀ m, m ∈ names →
     Str.startswith (id +:+ ".") m = false ∨ disk st !! Path.join outdir m = Some []) →
  Fetcher.find_by_id outdir (Some id) names filename st = (Ret filename, st).
Proof.
  intros Hskip. induction names as [|m names IH]; simpl; [done|].
  assert (Fetcher.find_by_id outdir (Some id) names filename st = (Ret filename, st)) as IH'
    by (apply IH; intros m' Hm'; by apply Hskip, list_elem_of_further).
  destruct (Hskip m (list_elem_of_here _ _)) as [->|Hm]; [done|].
  destruct (Str.startswith (id +:+ ".") m); [|done].
  unfold mbind, io_mbind, io_bind, getsize. by rewrite Hm.
Qed.

(** X12 (looking the file up by its id). When neither the prepared name nor
    its ".mp4" variant is there, the first name of the directory that
    starts with the id and a dot and is the name of a nonempty file is
    returned, joined to the directory; names that do not start so, and
    empty files, are passed over.  When the directory has no such name the
    download fails with "output file not found". *)
Theorem download_falls_back_to_listing (url outdir : string) (st : state)
    (id filename : string) (d1 : gmap string bytes) :
  extract_info (Fetcher.cookiefile_of cookies_file (disk st)) outdir url (disk st)
  = (Info (Some id) filename, d1) →
  d1 !! filename = None →
  d1 !! ((Path.splitext filename).1 +:+ ".mp4") = None →
  (∀ skipped fname later c,
     listdir outdir d1 = skipped ++ fname :: later →
     (∀ m, m ∈ skipped →
        Str.startswith (id +:+ ".") m = false ∨ d1 !! Path.join outdir m = Some []) →
     Str.startswith (id +:+ ".") fname = true →
     d1 !! Path.join outdir fname = Some c → c ≠ [] →
     Fetcher.download_with_ytdlp cookies_file extract_info listdir url outdir st
     = (Ret (Path.join outdir fname), set_disk d1 st)) ∧
  ((∀ m, m ∈ listdir outdir d1 →
      Str.startswith (id +:+ ".") m = false ∨ d1 !! Path.join outdir m = Some []) →
   Fetcher.download_with_ytdlp cookies_file extract_info listdir url outdir st
   = (Raise "Download completed but output file not found", set_disk d1 st)).
Proof.
  intros He H1 H2. rewrite download_eq, He, resolve_eq. simpl.
  rewrite !bool_decide_eq_false_2 by (rewrite ?H1, ?H2; by intros [??]).
  split.
  - intros skipped fname later c Hl Hskip Hstart Hc Hne. rewrite Hl.
    rewrite (find_by_id_found outdir id skipped later fname filename _ c); try done.
    by rewrite bool_decide_eq_true_2 by (simpl; by rewrite Hc).
  - intros Hnone. rewrite find_by_id_none by done.
    by rewrite bool_decide_eq_false_2 by (simpl; rewrite H1; by intros [??]).
Qed.

End FetcherProperties.

Lemma download_returns_existing_file_witness :
  is_Some (disk (start demo_webm) !! "/tmp/abc.webm") ∧
  trace (start demo_webm) = trace (start demo_webm) ∧
  sends (start demo_webm) = sends (start demo_webm) ∧
  ∃ id filename,
    demo_library "/tmp/abc.mkv" (Fetcher.cookiefile_of "/tmp/cookies.txt" (disk (start demo_webm)))
      "/tmp" "https://youtu.be/abc" (disk (start demo_webm))
    = (Info id filename, disk (start demo_webm)).
Proof.
  apply (download_returns_existing_file "/tmp/cookies.txt" (demo_library "/tmp/abc.mkv")
           demo_listdir "https://youtu.be/abc" "/tmp" (start demo_webm) (start demo_webm)).
  vm_compute. reflexivity.
Defined.

Lemma download_prefers_prepared_name_witness :
  (is_Some (demo_mp4 !! "/tmp/abc.webm") →
   Fetcher.download_with_ytdlp "/tmp/cookies.txt" (demo_library "/tmp/abc.webm") demo_listdir
     "https://youtu.be/abc" "/tmp" (start demo_mp4)
   = (Ret "/tmp/abc.webm", set_disk demo_mp4 (start demo_mp4))) ∧
  (demo_mp4 !! "/tmp/abc.webm" = None →
   is_Some (demo_mp4 !! ((Path.splitext "/tmp/abc.webm").1 +:+ ".mp4")) →
   Fetcher.download_with_ytdlp "/tmp/cookies.txt" (demo_library "/tmp/abc.webm") demo_listdir
     "https://youtu.be/abc" "/tmp" (start demo_mp4)
   = (Ret ((Path.splitext "/tmp/abc.webm").1 +:+ ".mp4"), set_disk demo_mp4 (start demo_mp4))).
Proof.
  apply (download_prefers_prepared_name "/tmp/cookies.txt" (demo_library "/tmp/abc.webm")
           demo_listdir "https://youtu.be/abc" "/tmp" (start demo_mp4) (Some "abc")
           "/tmp/abc.webm" demo_mp4).
  reflexivity.
Defined.

Lemma download_falls_back_to_listing_witness :
  (∀ skipped fname later c,
     demo_listdir "/tmp" demo_webm = skipped ++ fname :: later →
     (∀ m, m ∈ skipped →
        Str.startswith ("abc" +:+ ".") m = false ∨ demo_webm !! Path.join "/tmp" m = Some []) →
     Str.startswith ("abc" +:+ ".") fname = true →
     demo_webm !! Path.join "/tmp" fname = Some c → c ≠ [] →
     Fetcher.download_with_ytdlp "/tmp/cookies.txt" (demo_library "/tmp/abc.mkv") demo_listdir
       "https://youtu.be/abc" "/tmp" (start demo_webm)
     = (Ret (Path.join "/tmp" fname), set_disk demo_webm (start demo_webm))) ∧
  ((∀ m, m ∈ demo_listdir "/tmp" demo_webm →
      Str.startswith ("abc" +:+ ".") m = false ∨ demo_webm !! Path.join "/tmp" m = Some []) →
   Fetcher.download_with_ytdlp "/tmp/cookies.txt" (demo_library "/tmp/abc.mkv") demo_listdir
     "https://youtu.be/abc" "/tmp" (start demo_webm)
   = (Raise "Download completed but output file not found", set_disk demo_webm (start demo_webm))).
Proof.
  apply (download_falls_back_to_listing "/tmp/cookies.txt" (demo_library "/tmp/abc.mkv")
           demo_listdir "https://youtu.be/abc" "/tmp" (start demo_webm) "abc" "/tmp/abc.mkv"
           demo_webm).
  - reflexivity.
  - reflexivity.
  - reflexivity.
Defined.

(** The run of the example: "abc.part" is empty and passed over, "abc.webm"
    is taken. *)
Example download_demo :
  Fetcher.download_with_ytdlp "/tmp/cookies.txt" (demo_library "/tmp/abc.mkv") demo_listdir
    "https://youtu.be/abc" "/tmp" (start demo_webm)
  = (Ret "/tmp/abc.webm", start demo_webm).
Proof. vm_compute. reflexivity. Qed.

Lemma needs_login_wrapped (msg : string) :
  needs_login ("yt-dlp DownloadError: " +:+ msg) = needs_login msg.
Proof.
  unfold needs_login. rewrite StrFacts.lower_app.
  change (Str.lower "yt-dlp DownloadError: ") with "yt-dlp downloaderror: ".
  generalize (Str.lower msg). intros m.
  repeat (rewrite StrFacts.app_cons; cbn [Str.contains Str.startswith Ascii.eqb Bool.eqb andb]).
  by rewrite StrFacts.app_nil_l.
Qed.

Lemma fetch_eq (cookies_file : string)
    (extract_info :
       option string → string → string → gmap string bytes → extraction * gmap string bytes)
    (listdir : string → gmap string bytes → list string)
    (url : string) (d : gmap string bytes) :
  (∃ filepath d1, Fetcher.fetch cookies_file extract_info listdir url d = (Downloaded filepath, d1) ∧
                  is_Some (d1 !! filepath)) ∨
  (∃ msg d1, Fetcher.fetch cookies_file extract_info listdir url d = (DownloadFailed msg, d1)).
Proof.
  unfold Fetcher.fetch.
  destruct (Fetcher.download_with_ytdlp cookies_file extract_info listdir url TMP_DIR (State d [] 0))
    as [[filepath|msg|] st'] eqn:E; [|right; by eexists _, _..].
  left. exists filepath, (disk st'). split; [done|].
  rewrite download_eq in E.
  destruct (extract_info _ TMP_DIR url _) as [[id filename|msg|msg] d1]; [|done..].
  destruct (resolve_returns listdir TMP_DIR id filename (set_disk d1 (State d [] 0)))
    as (r & Hr & _ & Hthere).
  rewrite Hr in E. injection E as -> <-. by apply Hthere.
Qed.

(** X10 (no access failure after a download). With the downloader of
    bot.py, [handle_download] never ends with "Downloaded but failed to
    access file": a path that the downloader returns is on the disk when
    its size is taken. *)
Theorem no_access_failure (write_fault : string → option string)
    (upload_fault : nat → option string) (cookies_file : string)
    (extract_info :
       option string → string → string → gmap string bytes → extraction * gmap string bytes)
    (listdir : string → gmap string bytes → list string)
    (url : string) (d : gmap string bytes) :
  ∃ st',
    handle_download write_fault upload_fault (Fetcher.fetch cookies_file extract_info listdir)
      url (start d) = (Ret tt, st') ∧
    ∀ e, MsgAccessFailed e ∉ messages (trace st').
Proof.
  rewrite handle_download_eq.
  destruct (fetch_eq cookies_file extract_info listdir url d)
    as [(filepath & d1 & -> & [data Hd])|(msg & d1 & ->)].
  2:{ eexists. split; [done|]. intros e. simpl. rewrite !elem_of_cons, elem_of_nil.
      by intros [?|[?|[]]]. }
  rewrite Hd.
  destruct (Z.of_nat (length data) <=? TG_SIZE_LIMIT).
  - rewrite (direct_send_run upload_fault filepath _ _ data) by done.
    eexists. split; [done|]. intros e. simpl.
    destruct (upload_fault 0%nat); simpl; rewrite !elem_of_cons, elem_of_nil;
      by intros [?|[?|[?|[]]]].
  - destruct (split_and_send_run write_fault upload_fault filepath
                (Z.of_nat (length data)) (State d1 [ReplyText (MsgQueued url)] 0) data Hd)
      as (st' & cs & k & closing & -> & _ & Htr & _ & Hres).
    exists st'. split; [done|]. intros e. rewrite Htr. simpl.
    rewrite messages_app, messages_uploaded. simpl.
    destruct Hres as [(e' & _ & _ & -> & _)|[(e' & p & c & _ & _ & _ & _ & -> & _)|(_ & _ & _ & -> & _)]];
      simpl; rewrite !elem_of_cons, elem_of_nil; by intros [?|[?|[?|[]]]].
Qed.

(** X13 (the hint and the wrapping of the error). When yt-dlp raises a
    DownloadError, the request ends with the failure message for the text
    "yt-dlp DownloadError: " followed by the text of the error, and the
    credential hint is added exactly when the text of the error itself has
    one of the keywords: the prefix that [download_with_ytdlp] puts before
    it neither brings nor hides one. *)
Theorem download_error_hint (write_fault : string → option string)
    (upload_fault : nat → option string) (cookies_file : string)
    (extract_info :
       option string → string → string → gmap string bytes → extraction * gmap string bytes)
    (listdir : string → gmap string bytes → list string)
    (url : string) (d d1 : gmap string bytes) (msg : string) :
  extract_info (Fetcher.cookiefile_of cookies_file d) TMP_DIR url d = (DownloadError msg, d1) →
  handle_download write_fault upload_fault (Fetcher.fetch cookies_file extract_info listdir)
    url (start d)
  = (Ret tt,
     State d1
       [ReplyText (MsgQueued url);
        EditText (MsgDownloadFailed ("yt-dlp DownloadError: " +:+ msg)
                    (if needs_login msg then cookie_hint else ""))]
       0) ∧
  (needs_login msg = true ↔ mentions_restriction msg).
Proof.
  intros He. split; [|apply needs_login_spec].
  rewrite handle_download_eq. unfold Fetcher.fetch. rewrite download_eq. simpl.
  rewrite He. simpl. by rewrite needs_login_wrapped.
Qed.

Lemma download_error_hint_witness :
  handle_download no_fault no_fault
    (Fetcher.fetch "/tmp/cookies.txt"
       (λ _ _ _ d, (DownloadError "ERROR: Private video. Sign in if you have access", d))
       demo_listdir)
    "https://youtu.be/abc" (start ∅)
  = (Ret tt,
     State ∅
       [ReplyText (MsgQueued "https://youtu.be/abc");
        EditText (MsgDownloadFailed
                    ("yt-dlp DownloadError: " +:+ "ERROR: Private video. Sign in if you have access")
                    (if needs_login "ERROR: Private video. Sign in if you have access"
                     then cookie_hint else ""))]
       0) ∧
  (needs_login "ERROR: Private video. Sign in if you have access" = true ↔
   mentions_restriction "ERROR: Private video. Sign in if you have access").
Proof.
  apply (download_error_hint no_fault no_fault "/tmp/cookies.txt"
           (λ _ _ _ d, (DownloadError "ERROR: Private video. Sign in if you have access", d))
           demo_listdir "https://youtu.be/abc" ∅ ∅).
  reflexivity.
Defined.

(** X14 (the cookie file). [ensure_cookies_file] does nothing when
    YTDLP_COOKIES_CONTENT is unset or empty.  Otherwise, when it returns,
    the cookie file holds the bytes of the content and no other file is
    touched, and a download that follows is made with the cookie file in
    the options, whatever yt-dlp would do without it. *)
Theorem cookies_written_then_used (write_fault : string → option string)
    (cookies_file : string)
    (extract_info extract_info' :
       option string → string → string → gmap string bytes → extraction * gmap string bytes)
    (listdir : string → gmap string bytes → list string)
    (content : option string) (st st1 : state) (url outdir : string) :
  Fetcher.ensure_cookies_file write_fault cookies_file content st = (Ret tt, st1) →
  (content = None ∨ content = Some "" → st1 = st) ∧
  (∀ text, content = Some text → text ≠ "" →
     st1 = set_disk (<[cookies_file := list_byte_of_string text]> (disk st)) st ∧
     ((∀ o u d, extract_info' (Some cookies_file) o u d = extract_info (Some cookies_file) o u d) →
      Fetcher.download_with_ytdlp cookies_file extract_info' listdir url outdir st1
      = Fetcher.download_with_ytdlp cookies_file extract_info listdir url outdir st1)).
Proof.
  intros Hrun. split.
  - intros [->| ->]; simpl in Hrun; by injection Hrun.
  - intros text -> Hne. destruct text as [|a text]; [done|].
    unfold Fetcher.ensure_cookies_file, write_file in Hrun.
    destruct (write_fault cookies_file); [done|]. injection Hrun as <-.
    split; [done|]. intros Hagree. rewrite !download_eq.
    assert (Fetcher.cookiefile_of cookies_file
              (disk (set_disk (<[cookies_file := list_byte_of_string (String a text)]> (disk st)) st))
            = Some cookies_file) as ->.
    { unfold Fetcher.cookiefile_of. simpl. rewrite lookup_insert_eq.
      by rewrite bool_decide_eq_true_2. }
    by rewrite Hagree.
Qed.

Lemma cookies_written_then_used_witness :
  (Some "# Netscape HTTP Cookie File" = None ∨ Some "# Netscape HTTP Cookie File" = Some "" →
   State {[ "/tmp/cookies.txt" := bytes_of "# Netscape HTTP Cookie File" ]} [] 0 = start ∅) ∧
  (∀ text, Some "# Netscape HTTP Cookie File" = Some text → text ≠ "" →
     State {[ "/tmp/cookies.txt" := bytes_of "# Netscape HTTP Cookie File" ]} [] 0
     = set_disk (<["/tmp/cookies.txt" := list_byte_of_string text]> (disk (start ∅))) (start ∅) ∧
     ((∀ o u d, demo_library_with_cookies "/tmp/abc.webm" (Some "/tmp/cookies.txt") o u d
                = demo_library "/tmp/abc.webm" (Some "/tmp/cookies.txt") o u d) →
      Fetcher.download_with_ytdlp "/tmp/cookies.txt" (demo_library_with_cookies "/tmp/abc.webm")
        demo_listdir "https://youtu.be/abc" "/tmp"
        (State {[ "/tmp/cookies.txt" := bytes_of "# Netscape HTTP Cookie File" ]} [] 0)
      = Fetcher.download_with_ytdlp "/tmp/cookies.txt" (demo_library "/tmp/abc.webm") demo_listdir
          "https://youtu.be/abc" "/tmp"
          (State {[ "/tmp/cookies.txt" := bytes_of "# Netscape HTTP Cookie File" ]} [] 0))).
Proof.
  apply (cookies_written_then_used no_fault "/tmp/cookies.txt" (demo_library "/tmp/abc.webm")
           (demo_library_with_cookies "/tmp/abc.webm") demo_listdir
           (Some "# Netscape HTTP Cookie File")
           (start ∅) (State {[ "/tmp/cookies.txt" := bytes_of "# Netscape HTTP Cookie File" ]} [] 0)
           "https://youtu.be/abc" "/tmp").
  vm_compute. reflexivity.
Defined.
